(** * TiddlyRemember: the Anki synchronisation pass (ankisync.py)

    A shallow embedding of [sync] and its helpers [_change_note_type],
    [_set_initial_scheduling] and [_update_deck].  The Anki collection is
    an explicit store threaded through every call; an uncaught Python
    exception ends the run and leaves the store as mutated so far. *)

From Stdlib Require Import Ascii.
From stdpp Require Import gmap strings list fin_maps pretty.

(** ** Identifiers and source notes *)

(** [Twid] is a [NewType] over [str]. *)
Abbreviation Twid := string (only parsing).

(** Dates are day ordinals, so that [(a - b).days] is a subtraction. *)
Record Schedule := {
  ivl : Z;
  ease : Z;
  lapses : Z;
  due : Z
}.

(** A note type as [trmodels] declares it. *)
Record ModelData := {
  name : string;
  fields : list string;
  templates : list string
}.

Global Instance ModelData_eq_dec : EqDecision ModelData.
Proof. solve_decision. Defined.

(** Modelled from the spec: [TwNote] (twnote.py) is not part of the
    sources; a source note has an id, a type, a mapping from field names
    to text, an optional target group and an optional progress snapshot. *)
Record TwNote := {
  id_ : string;
  model : ModelData;
  tw_fields : gmap string string;
  target_deck : option string;
  schedule : option Schedule
}.

(** ** The collection *)

(** An Anki note: its type (by name) and its fields, in the order of the
    note type, each with its name. *)
Record NoteRow := {
  mname : string;
  items : list (string * string)
}.

(** A note object held by the program: [nid] is [note.id]. *)
Record Note := {
  nid : nat;
  nrow : NoteRow
}.

Record Card := {
  c_nid : nat;
  ord : nat;
  did : nat;
  queue : Z;
  type_ : Z;
  c_ivl : Z;
  factor : Z;
  c_lapses : Z;
  c_due : Z
}.

(** A registered note type of the collection. *)
Record NoteType := {
  flds : list string;
  tmpls : list string
}.

(** Every mutating call the program makes on the collection. *)
Inductive Op :=
| OpAddNotetype (nm : string)
| OpNewDeck (nm : string) (d : nat)
| OpAddNote (n : nat) (d : nat)
| OpFlushNote (n : nat)
| OpUpdateCard (c : nat)
| OpSetDueDate (c : nat) (days : string)
| OpFlushCard (c : nat)
| OpChangeNotetype (n : nat) (new_name : string)
| OpRemoveNotes (ns : list nat).

(** The collection; [oplog] has the most recent call first. *)
Record Col := {
  models : gmap string NoteType;
  notes : gmap nat NoteRow;
  cards : gmap nat Card;
  decks : gmap string nat;
  oplog : list Op
}.

Definition set_models (f : gmap string NoteType → gmap string NoteType) (c : Col) : Col :=
  {| models := f (models c); notes := notes c; cards := cards c;
     decks := decks c; oplog := oplog c |}.
Definition set_notes (f : gmap nat NoteRow → gmap nat NoteRow) (c : Col) : Col :=
  {| models := models c; notes := f (notes c); cards := cards c;
     decks := decks c; oplog := oplog c |}.
Definition set_cards (f : gmap nat Card → gmap nat Card) (c : Col) : Col :=
  {| models := models c; notes := notes c; cards := f (cards c);
     decks := decks c; oplog := oplog c |}.
Definition set_decks (f : gmap string nat → gmap string nat) (c : Col) : Col :=
  {| models := models c; notes := notes c; cards := cards c;
     decks := f (decks c); oplog := oplog c |}.
Definition log (o : Op) (c : Col) : Col :=
  {| models := models c; notes := notes c; cards := cards c;
     decks := decks c; oplog := o :: oplog c |}.

(** ** Exceptions and the run monad *)

Inductive Exn :=
| AssertionError (msg : string)
| KeyError (k : string)
| IndexError
| NotFoundError
| TypeError.

Inductive Outcome (A : Type) :=
| Done (a : A) (c : Col)
| Raise (e : Exn) (c : Col).
Arguments Done {A} a c.
Arguments Raise {A} e c.

Definition M (A : Type) : Type := Col → Outcome A.

Definition ret {A} (a : A) : M A := λ c, Done a c.
Definition raise {A} (e : Exn) : M A := λ c, Raise e c.
Definition bind {A B} (m : M A) (k : A → M B) : M B :=
  λ c, match m c with
       | Done a c' => k a c'
       | Raise e c' => Raise e c'
       end.
Definition get {A} (f : Col → A) : M A := λ c, Done (f c) c.
Definition modify (f : Col → Col) : M unit := λ c, Done tt (f c).

(** The collection a run ends in, however it ends. *)
Definition col_of {A} (o : Outcome A) : Col :=
  match o with
  | Done _ c => c
  | Raise _ c => c
  end.

Notation "'do' x <- m ; k" := (bind m (λ x, k))
  (at level 10, x pattern, m at level 100, k at level 200).
Notation "m ;; k" := (bind m (λ _, k))
  (at level 100, k at level 200, right associativity).

(** [for x in l: body(x)]. *)
Fixpoint for_each {A} (l : list A) (body : A → M unit) : M unit :=
  match l with
  | [] => ret tt
  | x :: l' => body x ;; for_each l' body
  end.

(** A loop that carries local variables of the program. *)
Fixpoint for_fold {A S} (l : list A) (body : A → S → M S) (s : S) : M S :=
  match l with
  | [] => ret s
  | x :: l' => do s' <- body x s; for_fold l' body s'
  end.

(** A list comprehension whose element expression can raise. *)
Fixpoint map_m {A B} (f : A → M B) (l : list A) : M (list B) :=
  match l with
  | [] => ret []
  | x :: l' => do y <- f x; do ys <- map_m f l'; ret (y :: ys)
  end.

Definition of_option {A} (e : Exn) (o : option A) : M A :=
  match o with
  | Some a => ret a
  | None => raise e
  end.

(** ** anki.consts *)

Definition QUEUE_TYPE_REV : Z := 2.
Definition CARD_TYPE_REV : Z := 2.
Definition QUEUE_TYPE_NEW : Z := 0.
Definition CARD_TYPE_NEW : Z := 0.

(** ** Note fields by name: [note[k]] and [note[k] = v] *)

Fixpoint get_item (k : string) (l : list (string * string)) : option string :=
  match l with
  | [] => None
  | (k', v) :: l' => if decide (k' = k) then Some v else get_item k l'
  end.

Fixpoint set_item (k v : string) (l : list (string * string)) : list (string * string) :=
  match l with
  | [] => []
  | (k', v') :: l' =>
      if decide (k' = k) then (k', v) :: l' else (k', v') :: set_item k v l'
  end.

Definition has_item (k : string) (l : list (string * string)) : bool :=
  bool_decide (k ∈ l.*1).

(** ** util.py *)

(** Modelled from the spec: [pluralize] (util.py) is not part of the
    sources; the summary uses the singular for a count of one and the
    plural otherwise, as in "Added 1 note." and "Updated 0 notes.". *)
Definition pluralize (sing : string) (count : nat) : string :=
  if decide (count = 1) then sing else sing +:+ "s".

Definition newline : string := String "010"%char EmptyString.

(** [sep.join(l)]. *)
Fixpoint join (sep : string) (l : list string) : string :=
  match l with
  | [] => ""
  | [s] => s
  | s :: l' => s +:+ sep +:+ join sep l'
  end.

(** Python's [a or b] for an optional string [a]: [None] and the empty
    string are both falsy. *)
Definition or_ (a : option string) (b : string) : string :=
  match a with
  | Some s => if decide (s = "") then b else s
  | None => b
  end.

(** ** The collection's interface, as the program calls it *)

Definition models_by_name (nm : string) : M (option NoteType) :=
  get (λ c, models c !! nm).

(** [col.find_notes('note:"a" or note:"b" ...')]: the ids of the notes
    whose type is one of the names. *)
Definition notes_of_types (names : list string) (c : Col) : gmap nat NoteRow :=
  filter (λ kv, mname kv.2 ∈ names) (notes c).

Definition find_notes_of_types (names : list string) : M (list nat) :=
  get (λ c, (map_to_list (notes_of_types names c)).*1).

(** [col.find_notes(f"nid:{n}")]. *)
Definition find_notes_nid (n : nat) : M (list nat) :=
  get (λ c, match notes c !! n with Some _ => [n] | None => [] end).

Definition getNote (n : nat) : M Note :=
  do r <- get (λ c, notes c !! n);
  match r with
  | Some r => ret {| nid := n; nrow := r |}
  | None => raise NotFoundError
  end.

(** [note.flush()]. *)
Definition flush_note (n : Note) : M unit :=
  modify (λ c, log (OpFlushNote (nid n)) (set_notes (insert (nid n) (nrow n)) c)).

Definition cards_of (n : nat) (c : Col) : gmap nat Card :=
  filter (λ kv, c_nid kv.2 = n) (cards c).

(** [col.find_cards(f"nid:{n}")]. *)
Definition find_cards_nid (n : nat) : M (list nat) :=
  get (λ c, (map_to_list (cards_of n c)).*1).

(** [note.cards()]: the cards of the note, read from the collection. *)
Definition note_cards (n : nat) : M (list (nat * Card)) :=
  get (λ c, map_to_list (cards_of n c)).

Definition get_card (k : nat) : M Card :=
  do r <- get (λ c, cards c !! k);
  of_option NotFoundError r.

Definition update_card (k : nat) (cd : Card) : M unit :=
  modify (λ c, log (OpUpdateCard k) (set_cards (insert k cd) c)).

(** [card.flush()]. *)
Definition flush_card (k : nat) (cd : Card) : M unit :=
  modify (λ c, log (OpFlushCard k) (set_cards (insert k cd) c)).

(** [col.decks.id(name)]: the id of the deck, which is created when it does
    not exist. *)
Definition decks_id (nm : string) : M nat :=
  λ c, match decks c !! nm with
       | Some d => Done d c
       | None =>
           let d := fresh (map_img (decks c) : gset nat) in
           Done d (log (OpNewDeck nm d) (set_decks (insert nm d) c))
       end.

Definition new_card (n o d : nat) : Card :=
  {| c_nid := n; ord := o; did := d; queue := QUEUE_TYPE_NEW;
     type_ := CARD_TYPE_NEW; c_ivl := 0; factor := 0; c_lapses := 0;
     c_due := 0 |}.

Definition with_did (d : nat) (cd : Card) : Card :=
  {| c_nid := c_nid cd; ord := ord cd; did := d; queue := queue cd;
     type_ := type_ cd; c_ivl := c_ivl cd; factor := factor cd;
     c_lapses := c_lapses cd; c_due := c_due cd |}.

Definition with_ord (o : nat) (cd : Card) : Card :=
  {| c_nid := c_nid cd; ord := o; did := did cd; queue := queue cd;
     type_ := type_ cd; c_ivl := c_ivl cd; factor := factor cd;
     c_lapses := c_lapses cd; c_due := c_due cd |}.

Definition with_due (d : Z) (cd : Card) : Card :=
  {| c_nid := c_nid cd; ord := ord cd; did := did cd; queue := queue cd;
     type_ := type_ cd; c_ivl := c_ivl cd; factor := factor cd;
     c_lapses := c_lapses cd; c_due := d |}.

(** The assignments [c.queue], [c.type], [c.ivl], [c.factor] and
    [c.lapses] of the scheduling seeder. *)
Definition as_review (s : Schedule) (cd : Card) : Card :=
  {| c_nid := c_nid cd; ord := ord cd; did := did cd;
     queue := QUEUE_TYPE_REV; type_ := CARD_TYPE_REV; c_ivl := ivl s;
     factor := ease s; c_lapses := lapses s; c_due := c_due cd |}.

(** The ids a new note must avoid: those of the notes and those the cards
    refer to. *)
Definition used_nids (c : Col) : gset nat :=
  dom (notes c) ∪ map_img (c_nid <$> cards c).

Definition add_card (n d : nat) (c : Col) (o : nat) : Col :=
  set_cards (insert (fresh (dom (cards c))) (new_card n o d)) c.

(** [Note(col, model)]: every field of the note type, empty. *)
Definition new_note (nm : string) (nt : NoteType) : NoteRow :=
  {| mname := nm; items := (λ f, (f, "")) <$> flds nt |}.

(** [col.remove_notes(ids)]: the notes and their cards. *)
Definition remove_notes (ids : list nat) : M unit :=
  modify (λ c, log (OpRemoveNotes ids)
    (set_cards (filter (λ kv, c_nid kv.2 ∉ ids))
       (set_notes (filter (λ kv, kv.1 ∉ ids)) c))).

(** The fields of a note moved to another type: the field at position [j]
    of the new type takes the value of the old field mapped to [j], and is
    empty when there is none. *)
Definition remap_items (new_flds : list string) (fmap : nat → option nat)
    (old : list (string * string)) : list (string * string) :=
  imap (λ j f,
    (f, match list_find (λ i, fmap i = Some j) (seq 0 (length old)) with
        | Some (_, i) => default "" (old.*2 !! i)
        | None => ""
        end)) new_flds.

Definition remap_card (n : nat) (cmap : nat → option nat) (cd : Card) : option Card :=
  if decide (c_nid cd = n)
  then (λ o, with_ord o cd) <$> cmap (ord cd)
  else Some cd.

(** [col.models.change(old, [n], new, fmap, cmap)]. *)
Definition models_change (n : nat) (new_name : string) (new_nt : NoteType)
    (fmap cmap : nat → option nat) : M unit :=
  modify (λ c, log (OpChangeNotetype n new_name)
    (set_cards (omap (remap_card n cmap))
       (set_notes (alter (λ r, {| mname := new_name;
                                  items := remap_items (flds new_nt) fmap (items r) |}) n) c))).

Section Ankisync.

(** ** What the program takes from outside *)

(** [trmodels.all_note_types()], [trmodels.ID_FIELD_NAME] and the two
    remapping methods of a note type. *)
Variable all_note_types : list ModelData.
Variable ID_FIELD_NAME : string.
Variable field_remap : ModelData → ModelData → nat → option nat.
Variable card_remap : ModelData → ModelData → nat → option nat.

(** The templates for which the collection generates a card when a note is
    added. *)
Variable card_ords : NoteRow → list nat.

(** The due date the scheduler gives a card for a day specification. *)
Variable due_date_of : string → Z.

(** [datetime.now().date()]. *)
Variable today : Z.

(** The order in which a set of ids is iterated. *)
Variable order : gset string → list string.

(** [col.add_note(note, deck)]: the note gets an id and its cards are
    generated in the deck. *)
Definition add_note (r : NoteRow) (deck : nat) : M Note :=
  λ c, let n := fresh (used_nids c) in
       let c1 := set_notes (insert n r) c in
       let c2 := foldl (add_card n deck) c1 (card_ords r) in
       Done {| nid := n; nrow := r |} (log (OpAddNote n deck) c2).

(** [col.sched.set_due_date((k,), days)]. *)
Definition set_due_date (k : nat) (days : string) : M unit :=
  modify (λ c, log (OpSetDueDate k days)
    (set_cards (alter (with_due (due_date_of days)) k) c)).

(** ** trmodels.py *)

(** Modelled from the spec: [by_name] (trmodels.py) is not part of the
    sources; it finds the recognized note type of that name, if any. *)
Definition by_name (nm : string) : option ModelData :=
  snd <$> list_find (λ m, name m = nm) all_note_types.

Definition register (m : ModelData) : M unit :=
  modify (λ c, log (OpAddNotetype (name m))
    (set_models (insert (name m) {| flds := fields m; tmpls := templates m |}) c)).

(** Modelled from the spec: [ensure_note_types] (trmodels.py) is not part
    of the sources; it registers the recognized types that are missing. *)
Definition ensure_note_types : M unit :=
  for_each all_note_types (λ m,
    do r <- models_by_name (name m);
    match r with
    | Some _ => ret tt
    | None => register m
    end).

(** Modelled from the spec: [verify_note_types] (trmodels.py) is not part
    of the sources; it fails when a recognized type is not registered with
    the expected fields and cards. *)
Definition verify_note_types : M unit :=
  for_each all_note_types (λ m,
    do r <- models_by_name (name m);
    match r with
    | Some nt =>
        if decide (flds nt = fields m ∧ tmpls nt = templates m)
        then ret tt
        else raise (AssertionError (name m))
    | None => raise (AssertionError (name m))
    end).

(** ** twnote.py *)

(** Modelled from the spec: the methods [model_equal], [fields_equal] and
    [update_fields] of [TwNote] (twnote.py) are not part of the sources.
    The fields a source note wants on its target note are its own fields
    and the reserved field holding its id. *)
Definition wanted_items (tw_note : TwNote) : list (string * string) :=
  map_to_list (tw_fields tw_note) ++ [(ID_FIELD_NAME, id_ tw_note)].

Definition model_equal (tw_note : TwNote) (anki_note : Note) : bool :=
  bool_decide (mname (nrow anki_note) = name (model tw_note)).

Definition fields_equal (tw_note : TwNote) (anki_note : Note) : bool :=
  forallb (λ kv, bool_decide (get_item kv.1 (items (nrow anki_note)) = Some kv.2))
    (wanted_items tw_note).

Definition update_row (tw_note : TwNote) (r : NoteRow) : NoteRow :=
  {| mname := mname r;
     items := foldl (λ l kv, set_item kv.1 kv.2 l) (items r) (wanted_items tw_note) |}.

Definition update_fields (tw_note : TwNote) (anki_note : Note) : Note :=
  {| nid := nid anki_note; nrow := update_row tw_note (nrow anki_note) |}.

(** [n[id_field]]. *)
Definition twid_of (r : NoteRow) : option string :=
  get_item ID_FIELD_NAME (items r).

(** ** ankisync.py *)

Definition unsupported_type (old_model_name : string) : string :=
  "A note of a type TiddlyRemember does not support ('" +:+ old_model_name +:+
  "') was found. TiddlyRemember does not know how to fix this note. " +:+
  "This is probably TiddlyRemember's fault -- please consider reporting " +:+
  "this error. ".

Definition _change_note_type (tw_note : TwNote) (anki_note : Note) : M Note :=
  let old_model_name := mname (nrow anki_note) in
  match by_name old_model_name with
  | None => raise (AssertionError (unsupported_type old_model_name))
  | Some old_model_definition =>
      let fmap := field_remap old_model_definition (model tw_note) in
      let cmap := card_remap old_model_definition (model tw_note) in
      do new_model <- models_by_name (name (model tw_note));
      do new_model <- of_option TypeError new_model;
      models_change (nid anki_note) (name (model tw_note)) new_model fmap cmap ;;
      do found <- find_notes_nid (nid anki_note);
      do first <- of_option IndexError (head found);
      getNote first
  end.

(** The body of the loop over the cards of a new note. *)
Definition seed_card (s : Schedule) (cid : nat) : M unit :=
  do c <- get_card cid;
  update_card cid (as_review s c) ;;
  let days_from_today := (due s - today)%Z in
  set_due_date cid (pretty days_from_today).

Definition _set_initial_scheduling (tw_note : TwNote) (anki_note : Note) : M unit :=
  match schedule tw_note with
  | Some s =>
      do cids <- find_cards_nid (nid anki_note);
      for_each cids (seed_card s)
  | None => ret tt
  end.

Definition move_card (new_did : nat) (card : nat * Card) : M unit :=
  if decide (did card.2 ≠ new_did)
  then flush_card card.1 (with_did new_did card.2)
  else ret tt.

Definition _update_deck (tw_note : TwNote) (anki_note : Note)
    (default_deck : string) : M unit :=
  let deck_name := or_ (target_deck tw_note) default_deck in
  do new_did <- decks_id deck_name;
  do cs <- note_cards (nid anki_note);
  for_each cs (move_card new_did).

(** A dict comprehension: a later item replaces an earlier one with the
    same key. *)
Definition dict_of {V} (l : list (string * V)) : gmap string V :=
  foldl (λ m kv, <[kv.1 := kv.2]> m) ∅ l.

Definition adds (extracted_twids anki_twids : gset string) : gset string :=
  extracted_twids ∖ anki_twids.
Definition edits (extracted_twids anki_twids : gset string) : gset string :=
  extracted_twids ∩ anki_twids.
Definition removes (extracted_twids anki_twids : gset string) : gset string :=
  anki_twids ∖ extracted_twids.

(** The body of the loop over [adds]. *)
Definition add_one (default_deck : string)
    (extracted_notes_map : gmap string TwNote) (note_id : string) : M unit :=
  do tw_note <- of_option (KeyError note_id) (extracted_notes_map !! note_id);
  do nt <- models_by_name (name (model tw_note));
  do nt <- of_option TypeError nt;
  let n := {| nid := 0; nrow := new_note (name (model tw_note)) nt |} in
  let n := update_fields tw_note n in
  do deck <- decks_id (or_ (target_deck tw_note) default_deck);
  do n <- add_note (nrow n) deck;
  _set_initial_scheduling tw_note n.

(** The type check of the edit loop: the note the rest of the iteration
    works on. *)
Definition type_check (tw_note : TwNote) (anki_note : Note) : M Note :=
  if negb (model_equal tw_note anki_note)
  then _change_note_type tw_note anki_note
  else ret anki_note.

(** The field check of the edit loop: the note as updated, and whether it
    was written. *)
Definition field_check (tw_note : TwNote) (anki_note : Note) : M (Note * bool) :=
  if negb (fields_equal tw_note anki_note)
  then let anki_note := update_fields tw_note anki_note in
       flush_note anki_note ;; ret (anki_note, true)
  else ret (anki_note, false).

(** The body of the loop over [edits].  It carries [anki_notes_map] and
    [edit_count]; the entry of the map is the very object the iteration
    updates, so it ends as that note. *)
Definition edit_one (default_deck : string)
    (extracted_notes_map : gmap string TwNote) (note_id : string)
    (st : gmap string Note * nat) : M (gmap string Note * nat) :=
  do anki_note <- of_option (KeyError note_id) (st.1 !! note_id);
  do tw_note <- of_option (KeyError note_id) (extracted_notes_map !! note_id);
  do anki_note <- type_check tw_note anki_note;
  do checked <- field_check tw_note anki_note;
  _update_deck tw_note checked.1 default_deck ;;
  ret (<[note_id := checked.1]> st.1,
       if checked.2 then S st.2 else st.2).

Definition keyed_note (n : Note) : M (string * Note) :=
  do k <- of_option (KeyError ID_FIELD_NAME) (twid_of (nrow n));
  ret (k, n).

Definition note_id_of (anki_notes_map : gmap string Note) (twid : string) : M nat :=
  do n <- of_option (KeyError twid) (anki_notes_map !! twid);
  ret (nid n).

Definition summary_line (verb : string) (count : nat) : string :=
  verb +:+ " " +:+ pretty count +:+ " " +:+ pluralize "note" count +:+ ".".

Definition sync (tw_notes : list TwNote) (default_deck : string) : M string :=
  ensure_note_types ;;
  verify_note_types ;;
  let extracted_notes := tw_notes in
  let extracted_twids : gset string := list_to_set (id_ <$> extracted_notes) in
  let extracted_notes_map := dict_of ((λ n, (id_ n, n)) <$> extracted_notes) in
  do found <- find_notes_of_types (name <$> all_note_types);
  do anki_notes <- map_m getNote found;
  do keyed <- map_m keyed_note anki_notes;
  let anki_twids : gset string := list_to_set keyed.*1 in
  let anki_notes_map := dict_of keyed in
  let adds := adds extracted_twids anki_twids in
  let edits := edits extracted_twids anki_twids in
  let removes := removes extracted_twids anki_twids in
  for_each (order adds) (add_one default_deck extracted_notes_map) ;;
  let userlog := [summary_line "Added" (size adds)] in
  do st <- for_fold (order edits) (edit_one default_deck extracted_notes_map)
             (anki_notes_map, 0);
  let userlog := userlog ++ [summary_line "Updated" st.2] in
  do ids <- map_m (note_id_of st.1) (order removes);
  remove_notes ids ;;
  let userlog := userlog ++ [summary_line "Removed" (size removes)] in
  ret (join newline userlog).

(** ** Notions used to state the properties *)

(** What the seeder makes of a card. *)
Definition seeded (s : Schedule) (cd : Card) : Card :=
  with_due (due_date_of (pretty (due s - today)%Z)) (as_review s cd).

(** What [_set_initial_scheduling] makes of a card. *)
Definition seeded_for (tw_note : TwNote) (n : nat) (cd : Card) : Card :=
  if decide (c_nid cd = n)
  then match schedule tw_note with Some s => seeded s cd | None => cd end
  else cd.

(** The note as [col.models.change] leaves it. *)
Definition migrated (tw_note : TwNote) (old : ModelData) (nt : NoteType)
    (r : NoteRow) : NoteRow :=
  {| mname := name (model tw_note);
     items := remap_items (flds nt) (field_remap old (model tw_note)) (items r) |}.

(** What [_update_deck] makes of a card. *)
Definition moved (n d : nat) (cd : Card) : Card :=
  if decide (c_nid cd = n) then with_did d cd else cd.

(** The calls of the add path, and those of the edit path. *)
Definition add_op (o : Op) : bool :=
  match o with
  | OpNewDeck _ _ | OpAddNote _ _ | OpUpdateCard _ | OpSetDueDate _ _ => true
  | _ => false
  end.

Definition edit_op (o : Op) : bool :=
  match o with
  | OpNewDeck _ _ | OpChangeNotetype _ _ | OpFlushNote _ | OpFlushCard _ => true
  | _ => false
  end.

Definition is_seed (o : Op) : bool :=
  match o with
  | OpUpdateCard _ | OpSetDueDate _ _ => true
  | _ => false
  end.

Definition is_flush_note (o : Op) : bool :=
  match o with
  | OpFlushNote _ => true
  | _ => false
  end.

Definition is_flush_card (o : Op) : bool :=
  match o with
  | OpFlushCard _ => true
  | _ => false
  end.

(** The scheduling state of a card. *)
Definition sched_of (cd : Card) : Z * Z * Z * Z :=
  (c_ivl cd, factor cd, c_lapses cd, c_due cd).

(** Every card of [c'] was a card of [c], with the same scheduling state. *)
Definition keeps_schedules (c c' : Col) : Prop :=
  ∀ k cd', cards c' !! k = Some cd' →
    ∃ cd, cards c !! k = Some cd ∧ sched_of cd' = sched_of cd.

(** Every card of [c] is still there in [c'], unchanged. *)
Definition untouched (c c' : Col) : Prop :=
  ∀ k cd, cards c !! k = Some cd → cards c' !! k = Some cd.

(** The log of [c'] is that of [c] with calls of one kind before it. *)
Definition logs_only (P : Op → bool) (c c' : Col) : Prop :=
  ∃ new, oplog c' = new ++ oplog c ∧ Forall (λ o, P o = true) new.

(** What the edit handling may do to the collection: no card is created,
    none changes its scheduling state, and the calls are those of the edit
    path. *)
Definition edit_frame (c c' : Col) : Prop :=
  keeps_schedules c c' ∧ logs_only edit_op c c'.

(** What the run may do before the edits begin: the cards that were there
    are left alone and no note is written. *)
Definition quiet (o : Op) : bool := negb (is_flush_note o).

Definition add_frame (c c' : Col) : Prop :=
  untouched c c' ∧ logs_only quiet c c'.

(** What a whole run may do to the cards: those that were there are left
    alone until the edits begin, and from then on no card changes its
    scheduling state. *)
Definition run_frame (c c' : Col) : Prop :=
  ∃ c1, untouched c c1 ∧ keeps_schedules c1 c'.

(** A computation whose runs all relate the collection before and after,
    however they end. *)
Definition respects {A} (R : Col → Col → Prop) (m : M A) : Prop :=
  ∀ c, R c (col_of (m c)).

(** The number of field writes in a log. *)
Definition field_writes (l : list Op) : nat :=
  length (filter (λ o, is_flush_note o = true) l).

(** The log of [c'] is that of [c] with [n] field writes before it. *)
Definition writes (n : nat) (c c' : Col) : Prop :=
  ∃ new, oplog c' = new ++ oplog c ∧ field_writes new = n.

(** Every recognized note type is registered as [trmodels] declares it. *)
Definition verified (c : Col) : Prop :=
  ∀ m, m ∈ all_note_types →
    models c !! name m = Some {| flds := fields m; tmpls := templates m |}.

(** The part of [sync] that follows the reading of the Anki notes;
    [keyed] are these notes, each with the id it holds. *)
Definition apply_changes (tw_notes : list TwNote) (default_deck : string)
    (keyed : list (string * Note)) : M string :=
  let extracted_twids : gset string := list_to_set (id_ <$> tw_notes) in
  let extracted_notes_map := dict_of ((λ n, (id_ n, n)) <$> tw_notes) in
  let anki_twids : gset string := list_to_set keyed.*1 in
  let anki_notes_map := dict_of keyed in
  let adds := adds extracted_twids anki_twids in
  let edits := edits extracted_twids anki_twids in
  let removes := removes extracted_twids anki_twids in
  for_each (order adds) (add_one default_deck extracted_notes_map) ;;
  do st <- for_fold (order edits) (edit_one default_deck extracted_notes_map)
             (anki_notes_map, 0);
  do ids <- map_m (note_id_of st.1) (order removes);
  remove_notes ids ;;
  ret (join newline [summary_line "Added" (size adds);
                     summary_line "Updated" st.2;
                     summary_line "Removed" (size removes)]).

(** The notes [sync] reads from the collection. *)
Definition loaded (c : Col) : list Note :=
  (λ kr, {| nid := kr.1; nrow := kr.2 |})
    <$> map_to_list (notes_of_types (name <$> all_note_types) c).

(** ** What the data model promises *)

(** Every recognized note type has the reserved field that holds the id. *)
Definition types_ok : bool :=
  forallb (λ m, bool_decide (ID_FIELD_NAME ∈ fields m)) all_note_types.

(** The type of every source note is a recognized one. *)
Definition source_ok (tw_notes : list TwNote) : bool :=
  forallb (λ tw, bool_decide (model tw ∈ all_note_types)) tw_notes.

(** No two notes of recognized types hold the same id. *)
Definition unique_ids (c : Col) : bool :=
  bool_decide (NoDup (omap (λ n, twid_of (nrow n)) (loaded c))).

(** The fields of every source note are fields of its type, and none is
    the reserved field. *)
Definition fields_ok (tw_notes : list TwNote) : bool :=
  forallb (λ tw,
    forallb (λ kv, bool_decide (kv.1 ∈ fields (model tw))
                   && bool_decide (kv.1 ≠ ID_FIELD_NAME))
      (map_to_list (tw_fields tw))) tw_notes.

(** Every note of a recognized type has the fields of its type. *)
Definition notes_ok (c : Col) : bool :=
  forallb (λ n,
    match by_name (mname (nrow n)) with
    | Some m => bool_decide ((items (nrow n)).*1 = fields m)
    | None => true
    end) (loaded c).

(** No two recognized note types have the same name, and those that the
    collection has registered are as [trmodels] declares them. *)
Definition names_ok : bool :=
  bool_decide (NoDup (name <$> all_note_types)).

Definition models_ok (c : Col) : bool :=
  forallb (λ m,
    match models c !! name m with
    | Some nt => bool_decide (flds nt = fields m ∧ tmpls nt = templates m)
    | None => true
    end) all_note_types.

(** Every note of a recognized type has the reserved field. *)
Definition ids_ok (c : Col) : bool :=
  forallb (λ n, bool_decide (is_Some (twid_of (nrow n)))) (loaded c).

(** The names of the recognized note types, and the ids held by the notes
    of these types. *)
Definition recognized_names : list string := name <$> all_note_types.

(** Note [k] of the collection is of a recognized type and holds id [x]. *)
Definition holds (c : Col) (k : nat) (x : string) : Prop :=
  ∃ r, notes c !! k = Some r ∧ mname r ∈ recognized_names ∧ twid_of r = Some x.

Definition unique (c : Col) : Prop :=
  ∀ k1 k2 x, holds c k1 x → holds c k2 x → k1 = k2.

(** Every entry of [anki_notes_map] is a note that holds the id it is
    filed under, in the program's copy and in the collection. *)
Definition linked (c : Col) (anki_notes_map : gmap string Note) : Prop :=
  ∀ x n, anki_notes_map !! x = Some n →
    notes c !! nid n = Some (nrow n) ∧ mname (nrow n) ∈ recognized_names
    ∧ twid_of (nrow n) = Some x.

(** Note [k] is as the source note wants it: of its type, with its
    fields, and with all its cards in its deck. *)
Definition in_sync (default_deck : string) (c : Col) (tw : TwNote) (k : nat) : Prop :=
  ∃ r d, notes c !! k = Some r
    ∧ mname r = name (model tw)
    ∧ fields_equal tw {| nid := k; nrow := r |} = true
    ∧ decks c !! or_ (target_deck tw) default_deck = Some d
    ∧ ∀ j cd, cards c !! j = Some cd → c_nid cd = k → did cd = d.

Definition synced_on (default_deck : string)
    (extracted_notes_map : gmap string TwNote) (D : gset string) (c : Col) : Prop :=
  ∀ x tw, x ∈ D → extracted_notes_map !! x = Some tw →
    ∃ k, in_sync default_deck c tw k.

(** Every note of a recognized type holds an id. *)
Definition all_keyed (c : Col) : Prop :=
  ∀ k r, notes c !! k = Some r → mname r ∈ recognized_names →
    is_Some (twid_of r).

(** Every entry of [anki_notes_map] has the fields of its type. *)
Definition conforming (anki_notes_map : gmap string Note) : Prop :=
  ∀ x n m, anki_notes_map !! x = Some n → m ∈ all_note_types →
    name m = mname (nrow n) → (items (nrow n)).*1 = fields m.

(** The fields of the source notes fit their types. *)
Definition fitting (extracted_notes_map : gmap string TwNote) : Prop :=
  ∀ x tw k v, extracted_notes_map !! x = Some tw → tw_fields tw !! k = Some v →
    k ∈ fields (model tw) ∧ k ≠ ID_FIELD_NAME.

(** Note [k] and its cards are the same in [c'] as in [c], and no deck is
    lost. *)
Definition frame_for (k : nat) (c c' : Col) : Prop :=
  notes c' !! k = notes c !! k
  ∧ (∀ j cd, c_nid cd = k → cards c' !! j = Some cd ↔ cards c !! j = Some cd)
  ∧ decks c ⊆ decks c'.

(** What [extracted_notes_map] is known to satisfy. *)
Definition keyed_by_id (extracted_notes_map : gmap string TwNote) : Prop :=
  ∀ x tw, extracted_notes_map !! x = Some tw →
    model tw ∈ all_note_types ∧ id_ tw = x.

Definition target_ids (c : Col) : gset string :=
  map_img (omap twid_of (notes_of_types recognized_names c)).

Definition source_ids (tw_notes : list TwNote) : gset string :=
  list_to_set (id_ <$> tw_notes).

(** What a run that ended normally leaves. *)
Definition synced (default_deck : string) (tw_notes : list TwNote) (c : Col) : Prop :=
  verified c ∧ unique c ∧ all_keyed c
  ∧ target_ids c = list_to_set (id_ <$> tw_notes)
  ∧ synced_on default_deck (dict_of ((λ n, (id_ n, n)) <$> tw_notes))
      (list_to_set (id_ <$> tw_notes)) c.

(** The ids of the notes of recognized types. *)
Definition recognized_nids (c : Col) : gset nat :=
  dom (notes_of_types recognized_names c).

(** The notes outside [N] and the cards of the notes outside [N] are in
    [c'] as they are in [c]. *)
Definition spares (N : gset nat) (c c' : Col) : Prop :=
  (∀ k r, k ∉ N → notes c !! k = Some r → notes c' !! k = Some r)
  ∧ (∀ j cd, c_nid cd ∉ N → cards c !! j = Some cd → cards c' !! j = Some cd).

(** No deck is lost or renumbered, and no registered note type is lost or
    changed. *)
Definition keeps_decks (c c' : Col) : Prop :=
  decks c ⊆ decks c' ∧ models c ⊆ models c'.

(** The calls of the seeder for one card, the most recent first. *)
Definition seed_calls (s : Schedule) (k : nat) : list Op :=
  [OpSetDueDate k (pretty (due s - today)%Z); OpUpdateCard k].

End Ankisync.

(** ** A small collection to run the program on *)

Module Demo.

Definition Q : ModelData :=
  {| name := "Q"; fields := ["Q"; "A"; "ID"]; templates := ["Card 1"] |}.
Definition Cloze : ModelData :=
  {| name := "Cloze"; fields := ["Text"; "ID"]; templates := ["Cloze"] |}.

Definition types : list ModelData := [Q; Cloze].

(** Fields keep their content when the other type has a field of the same
    name. *)
Definition fmap (a b : ModelData) (i : nat) : option nat :=
  f ← fields a !! i; fst <$> list_find (λ g, g = f) (fields b).
Definition cmap (a b : ModelData) (i : nat) : option nat :=
  if decide (i = 0) then Some 0 else None.

Definition ords (r : NoteRow) : list nat := [0].
Definition due_of (s : string) : Z := 100 + Z.of_nat (String.length s).

Definition empty : Col :=
  {| models := ∅; notes := ∅; cards := ∅; decks := ∅; oplog := [] |}.

Definition noteA : TwNote :=
  {| id_ := "1001"; model := Q;
     tw_fields := {[ "Q" := "2+2"; "A" := "4" ]};
     target_deck := Some "Math";
     schedule := Some {| ivl := 7; ease := 2500; lapses := 1; due := 110 |} |}.

Definition noteA' : TwNote :=
  {| id_ := "1001"; model := Cloze;
     tw_fields := {[ "Text" := "2+2={{c1::4}}" ]};
     target_deck := None;
     schedule := None |}.

Definition noteB : TwNote :=
  {| id_ := "2002"; model := Q;
     tw_fields := {[ "Q" := "3*3"; "A" := "9" ]};
     target_deck := Some "";
     schedule := None |}.

(** Note 0 as the first run over [noteA] leaves it, and a note of a type
    that is not a recognized one. *)
Definition note0 : Note :=
  {| nid := 0;
     nrow := {| mname := "Q";
                items := [("Q", "2+2"); ("A", "4"); ("ID", "1001")] |} |}.

Definition stray : Note :=
  {| nid := 7;
     nrow := {| mname := "Basic"; items := [("Front", "x"); ("ID", "3003")] |} |}.

Definition noteC : TwNote :=
  {| id_ := "3003"; model := Q;
     tw_fields := {[ "Q" := "1+1"; "A" := "2" ]};
     target_deck := None;
     schedule := None |}.

(** A collection outside the data model: two notes hold the same id. *)
Definition twin : NoteRow :=
  {| mname := "Q"; items := [("Q", "a"); ("A", "b"); ("ID", "9")] |}.

Definition twins : Col :=
  {| models := ∅; notes := {[ 0 := twin; 1 := twin ]}; cards := ∅; decks := ∅;
     oplog := [] |}.

Definition run (tw_notes : list TwNote) : M string :=
  sync types "ID" fmap cmap ords due_of 100 elements tw_notes "Default".

Definition after (tw_notes : list TwNote) (c : Col) : Col :=
  col_of (run tw_notes c).

(** The edit loop over one id whose note changes type, in a collection
    where another entry is of no recognized type. *)
Definition emap : gmap string TwNote := {[ "1001" := noteA'; "3003" := noteC ]}.
Definition amap : gmap string Note := {[ "1001" := note0; "3003" := stray ]}.

Definition edited : Outcome (gmap string Note * nat) :=
  for_fold ["1001"] (edit_one types "ID" fmap cmap "Default" emap) (amap, 0)
    (after [noteA] empty).

Definition edited_state : gmap string Note * nat :=
  match edited with
  | Done st _ => st
  | Raise _ _ => (∅, 0)
  end.

(** A collection where a note of a recognized type lacks the reserved
    field. *)
Definition bare : Col :=
  {| models := ∅;
     notes := {[ 3 := {| mname := "Q"; items := [("Q", "a"); ("A", "b")] |} ]};
     cards := ∅; decks := ∅; oplog := [] |}.

(** The note [note0] moved to the type of [noteA'], and the collection
    then. *)
Definition migrated_run : Outcome Note :=
  _change_note_type types fmap cmap noteA' note0 (after [noteA] empty).

Definition migrated_note : Note :=
  match migrated_run with
  | Done n _ => n
  | Raise _ _ => note0
  end.

Definition migrated_col : Col := col_of migrated_run.

End Demo.

(** * Properties *)

(** ** The run monad *)

Lemma bind_done {A B} (m : M A) (k : A → M B) c a c1 :
  m c = Done a c1 → bind m k c = k a c1.
Proof. unfold bind. by intros ->. Qed.

Lemma bind_raise {A B} (m : M A) (k : A → M B) c e c1 :
  m c = Raise e c1 → bind m k c = Raise e c1.
Proof. unfold bind. by intros ->. Qed.

Lemma bind_inv {A B} (m : M A) (k : A → M B) c b c2 :
  bind m k c = Done b c2 → ∃ a c1, m c = Done a c1 ∧ k a c1 = Done b c2.
Proof. unfold bind. destruct (m c) as [a c1|e c1]; [eauto | done]. Qed.

Lemma of_option_inv {A} e (o : option A) c a c1 :
  of_option e o c = Done a c1 → o = Some a ∧ c1 = c.
Proof. destruct o; cbv; naive_solver. Qed.

Lemma for_each_app {A} (l1 l2 : list A) body c :
  for_each (l1 ++ l2) body c = (for_each l1 body ;; for_each l2 body) c.
Proof.
  revert c. induction l1 as [|x l1 IH]; intros c; simpl; [done|].
  unfold bind in *. destruct (body x c) as [[] c1|]; [|done]. apply IH.
Qed.

(** A relation between the collection before and after that every
    iteration respects is respected by the loop, however it ends. *)
Lemma for_each_rel {A} (R : Col → Col → Prop) (l : list A) body :
  (∀ c, R c c) → (∀ c1 c2 c3, R c1 c2 → R c2 c3 → R c1 c3) →
  (∀ x c, x ∈ l → R c (col_of (body x c))) →
  ∀ c, R c (col_of (for_each l body c)).
Proof.
  intros Hrefl Htrans. induction l as [|x l IH]; intros Hbody c; simpl; [done|].
  unfold bind. pose proof (Hbody x c (list_elem_of_here _ _)) as Hx.
  destruct (body x c) as [[] c1|e c1]; simpl in *; [|done].
  eapply Htrans; [done|]. apply IH. intros y c' Hy. apply Hbody. by right.
Qed.

Lemma for_fold_rel {A S} (R : Col → Col → Prop) (l : list A) (body : A → S → M S) :
  (∀ c, R c c) → (∀ c1 c2 c3, R c1 c2 → R c2 c3 → R c1 c3) →
  (∀ x s c, x ∈ l → R c (col_of (body x s c))) →
  ∀ s c, R c (col_of (for_fold l body s c)).
Proof.
  intros Hrefl Htrans. induction l as [|x l IH]; intros Hbody s c; simpl; [done|].
  unfold bind. pose proof (Hbody x s c (list_elem_of_here _ _)) as Hx.
  destruct (body x s c) as [s1 c1|e c1]; simpl in *; [|done].
  eapply Htrans; [done|]. apply IH. intros y s' c' Hy. apply Hbody. by right.
Qed.

(** ** Relations every run respects *)

Section Respects.
Context (R : Col → Col → Prop).
Hypothesis R_refl : ∀ c, R c c.
Hypothesis R_trans : ∀ c1 c2 c3, R c1 c2 → R c2 c3 → R c1 c3.

Lemma respects_ret {A} (a : A) : respects R (ret a).
Proof using R_refl. intros c. apply R_refl. Qed.

Lemma respects_raise {A} e : respects R (@raise A e).
Proof using R_refl. intros c. apply R_refl. Qed.

Lemma respects_get {A} (f : Col → A) : respects R (get f).
Proof using R_refl. intros c. apply R_refl. Qed.

Lemma respects_of_option {A} e (o : option A) : respects R (of_option e o).
Proof using R_refl. destruct o; [apply respects_ret | apply respects_raise]. Qed.

Lemma respects_modify f : (∀ c, R c (f c)) → respects R (modify f).
Proof using Type. intros Hf c. apply Hf. Qed.

Lemma respects_bind {A B} (m : M A) (k : A → M B) :
  respects R m → (∀ a, respects R (k a)) → respects R (bind m k).
Proof using R_trans.
  intros Hm Hk c. unfold bind. specialize (Hm c).
  destruct (m c) as [a c1|e c1]; [|done]. eapply R_trans; [done|]. apply Hk.
Qed.

Lemma respects_for_each {A} (l : list A) body :
  (∀ x, respects R (body x)) → respects R (for_each l body).
Proof using R_refl R_trans.
  intros Hbody. induction l as [|x l IH]; [apply respects_ret|].
  apply respects_bind; [apply Hbody | done].
Qed.

Lemma respects_for_fold {A S} (l : list A) (body : A → S → M S) s :
  (∀ x s, respects R (body x s)) → respects R (for_fold l body s).
Proof using R_refl R_trans.
  intros Hbody. revert s. induction l as [|x l IH]; intros s; [apply respects_ret|].
  apply respects_bind; [apply Hbody | done].
Qed.

Lemma respects_map_m {A B} (f : A → M B) l :
  (∀ x, respects R (f x)) → respects R (map_m f l).
Proof using R_refl R_trans.
  intros Hf. induction l as [|x l IH]; [apply respects_ret|].
  apply respects_bind; [apply Hf|]. intros y.
  apply respects_bind; [done|]. intros ys. apply respects_ret.
Qed.
End Respects.

Lemma respects_seq {A B} (R1 R2 R3 : Col → Col → Prop) (m : M A) (k : A → M B) :
  (∀ c1 c2 c3, R1 c1 c2 → R2 c2 c3 → R3 c1 c3) →
  (∀ c1 c2, R1 c1 c2 → R3 c1 c2) →
  respects R1 m → (∀ a, respects R2 (k a)) → respects R3 (bind m k).
Proof.
  intros Hcomp Hincl Hm Hk c. unfold bind. specialize (Hm c).
  destruct (m c) as [a c1|e c1]; [|by apply Hincl].
  eapply Hcomp; [done|]. apply Hk.
Qed.

Lemma respects_done {A} (R : Col → Col → Prop) (m : M A) c a c' :
  respects R m → m c = Done a c' → R c c'.
Proof. intros Hm Hrun. specialize (Hm c). by rewrite Hrun in Hm. Qed.

Lemma respects_impl {A} (R1 R2 : Col → Col → Prop) (m : M A) :
  (∀ c1 c2, R1 c1 c2 → R2 c1 c2) → respects R1 m → respects R2 m.
Proof. intros Himpl Hm c. apply Himpl, Hm. Qed.

Lemma keeps_schedules_refl c : keeps_schedules c c.
Proof. intros k cd Hk. eauto. Qed.

Lemma keeps_schedules_trans c1 c2 c3 :
  keeps_schedules c1 c2 → keeps_schedules c2 c3 → keeps_schedules c1 c3.
Proof.
  intros H12 H23 k cd3 Hk3. destruct (H23 k cd3 Hk3) as (cd2 & Hk2 & Heq2).
  destruct (H12 k cd2 Hk2) as (cd1 & Hk1 & Heq1). exists cd1. split; congruence.
Qed.

Lemma untouched_refl c : untouched c c.
Proof. by intros k cd Hk. Qed.

Lemma untouched_trans c1 c2 c3 :
  untouched c1 c2 → untouched c2 c3 → untouched c1 c3.
Proof. intros H12 H23 k cd Hk. by apply H23, H12. Qed.

Lemma logs_only_refl P c : logs_only P c c.
Proof. by exists []. Qed.

Lemma logs_only_trans P c1 c2 c3 :
  logs_only P c1 c2 → logs_only P c2 c3 → logs_only P c1 c3.
Proof.
  intros (n1 & H1 & Hf1) (n2 & H2 & Hf2). exists (n2 ++ n1). split.
  - by rewrite H2, H1, (assoc_L (++)).
  - by apply Forall_app.
Qed.

Lemma logs_only_impl (P Q : Op → bool) c c' :
  (∀ o, P o = true → Q o = true) → logs_only P c c' → logs_only Q c c'.
Proof.
  intros HPQ (new & Hl & Hf). exists new. split; [done|].
  eapply Forall_impl; [done|]. done.
Qed.

Lemma logs_only_log (P : Op → bool) o c c' :
  P o = true → oplog c' = oplog c → logs_only P c (log o c').
Proof. intros Ho Hl. exists [o]. cbn. rewrite Hl. split; [done|]. by constructor. Qed.

(** ** The identifier diff *)

(** C2: the diff of two id sets is [adds] = source minus target, [edits] =
    source and target, [removes] = target minus source, and the three are
    pairwise disjoint. *)
Theorem diff_sets (extracted_twids anki_twids : gset string) :
  adds extracted_twids anki_twids = extracted_twids ∖ anki_twids
  ∧ edits extracted_twids anki_twids = extracted_twids ∩ anki_twids
  ∧ removes extracted_twids anki_twids = anki_twids ∖ extracted_twids
  ∧ (∀ x, x ∈ adds extracted_twids anki_twids ↔ x ∈ extracted_twids ∧ x ∉ anki_twids)
  ∧ (∀ x, x ∈ edits extracted_twids anki_twids ↔ x ∈ extracted_twids ∧ x ∈ anki_twids)
  ∧ (∀ x, x ∈ removes extracted_twids anki_twids ↔ x ∈ anki_twids ∧ x ∉ extracted_twids)
  ∧ adds extracted_twids anki_twids ## edits extracted_twids anki_twids
  ∧ adds extracted_twids anki_twids ## removes extracted_twids anki_twids
  ∧ edits extracted_twids anki_twids ## removes extracted_twids anki_twids.
Proof. unfold adds, edits, removes. repeat split; set_solver. Qed.

Section Properties.

Variable all_note_types : list ModelData.
Variable ID_FIELD_NAME : string.
Variables field_remap card_remap : ModelData → ModelData → nat → option nat.
Variable card_ords : NoteRow → list nat.
Variable due_date_of : string → Z.
Variable today : Z.
Variable order : gset string → list string.

Local Abbreviation by_name := (by_name all_note_types).
Local Abbreviation ensure_note_types := (ensure_note_types all_note_types).
Local Abbreviation verify_note_types := (verify_note_types all_note_types).
Local Abbreviation wanted_items := (wanted_items ID_FIELD_NAME).
Local Abbreviation fields_equal := (fields_equal ID_FIELD_NAME).
Local Abbreviation update_row := (update_row ID_FIELD_NAME).
Local Abbreviation update_fields := (update_fields ID_FIELD_NAME).
Local Abbreviation twid_of := (twid_of ID_FIELD_NAME).
Local Abbreviation keyed_note := (keyed_note ID_FIELD_NAME).
Local Abbreviation add_note := (add_note card_ords).
Local Abbreviation set_due_date := (set_due_date due_date_of).
Local Abbreviation _change_note_type :=
  (_change_note_type all_note_types field_remap card_remap).
Local Abbreviation seed_card := (seed_card due_date_of today).
Local Abbreviation _set_initial_scheduling :=
  (_set_initial_scheduling due_date_of today).
Local Abbreviation add_one := (add_one ID_FIELD_NAME card_ords due_date_of today).
Local Abbreviation type_check := (type_check all_note_types field_remap card_remap).
Local Abbreviation field_check := (field_check ID_FIELD_NAME).
Local Abbreviation edit_one :=
  (edit_one all_note_types ID_FIELD_NAME field_remap card_remap).
Local Abbreviation seeded := (seeded due_date_of today).
Local Abbreviation seeded_for := (seeded_for due_date_of today).
Local Abbreviation recognized_names := (recognized_names all_note_types).
Local Abbreviation target_ids := (target_ids all_note_types ID_FIELD_NAME).
Local Abbreviation migrated := (migrated field_remap).
Local Abbreviation verified := (verified all_note_types).
Local Abbreviation loaded := (loaded all_note_types).
Local Abbreviation apply_changes :=
  (apply_changes all_note_types ID_FIELD_NAME field_remap card_remap card_ords
     due_date_of today order).
Local Abbreviation types_ok := (types_ok all_note_types ID_FIELD_NAME).
Local Abbreviation source_ok := (source_ok all_note_types).
Local Abbreviation unique_ids := (unique_ids all_note_types ID_FIELD_NAME).
Local Abbreviation holds := (holds all_note_types ID_FIELD_NAME).
Local Abbreviation unique := (unique all_note_types ID_FIELD_NAME).
Local Abbreviation linked := (linked all_note_types ID_FIELD_NAME).
Local Abbreviation keyed_by_id := (keyed_by_id all_note_types).
Local Abbreviation fields_ok := (fields_ok ID_FIELD_NAME).
Local Abbreviation notes_ok := (notes_ok all_note_types).
Local Abbreviation in_sync := (in_sync ID_FIELD_NAME).
Local Abbreviation synced_on := (synced_on ID_FIELD_NAME).
Local Abbreviation all_keyed := (all_keyed all_note_types ID_FIELD_NAME).
Local Abbreviation conforming := (conforming all_note_types).
Local Abbreviation fitting := (fitting ID_FIELD_NAME).
Local Abbreviation synced := (synced all_note_types ID_FIELD_NAME).
Local Abbreviation names_ok := (names_ok all_note_types).
Local Abbreviation models_ok := (models_ok all_note_types).
Local Abbreviation ids_ok := (ids_ok all_note_types ID_FIELD_NAME).
Local Abbreviation sync :=
  (sync all_note_types ID_FIELD_NAME field_remap card_remap card_ords
        due_date_of today order).

(** ** The scheduling seeder *)

Lemma seed_card_run s k cd c :
  cards c !! k = Some cd →
  ∃ c1, seed_card s k c = Done tt c1
    ∧ cards c1 = <[k := seeded s cd]> (cards c)
    ∧ notes c1 = notes c ∧ decks c1 = decks c ∧ models c1 = models c
    ∧ oplog c1 = OpSetDueDate k (pretty (due s - today)%Z) :: OpUpdateCard k :: oplog c.
Proof.
  intros Hk. eexists. split.
  { unfold seed_card, get_card, bind, get. rewrite Hk. cbn. reflexivity. }
  cbn. repeat split. by rewrite alter_insert_eq.
Qed.

Lemma seed_loop s (l : list nat) : ∀ c,
  NoDup l → (∀ k, k ∈ l → is_Some (cards c !! k)) →
  ∃ c', for_each l (seed_card s) c = Done tt c'
    ∧ (∀ k, cards c' !! k
            = if decide (k ∈ l) then seeded s <$> cards c !! k else cards c !! k)
    ∧ notes c' = notes c ∧ decks c' = decks c ∧ models c' = models c
    ∧ (∀ k, k ∈ l → OpSetDueDate k (pretty (due s - today)%Z) ∈ oplog c')
    ∧ ∃ new, oplog c' = new ++ oplog c ∧ Forall (λ o, is_seed o = true) new.
Proof.
  induction l as [|k l IH]; intros c Hnd Hin.
  { exists c. split_and!; try done.
    - intros k Hk. by apply elem_of_nil in Hk.
    - by exists []. }
  apply NoDup_cons in Hnd as [Hk Hnd].
  destruct (Hin k) as [cd Hcd]; [by left|].
  destruct (seed_card_run s k cd c Hcd) as (c1 & Hrun & Hc1 & Hn1 & Hd1 & Hm1 & Hl1).
  destruct (IH c1 Hnd) as (c' & Hrun' & Hc' & Hn' & Hd' & Hm' & Hl' & new & Hnew & Hseed).
  { intros j Hj. rewrite Hc1. destruct (decide (k = j)) as [->|Hne].
    - rewrite lookup_insert_eq. eauto.
    - rewrite lookup_insert_ne by done. apply Hin. by right. }
  exists c'. split; [simpl; by rewrite (bind_done _ _ _ _ _ Hrun)|].
  split; [|split_and!; try congruence].
  - intros j. rewrite Hc', Hc1. destruct (decide (j = k)) as [->|Hne].
    + rewrite decide_False by done. rewrite decide_True by set_solver.
      by rewrite lookup_insert_eq, Hcd.
    + rewrite lookup_insert_ne by done.
      destruct (decide (j ∈ l)); [by rewrite decide_True by set_solver|].
      by rewrite decide_False by set_solver.
  - intros j [->|Hj]%elem_of_cons; [|by apply Hl'].
    rewrite Hnew, Hl1. apply elem_of_app. right. by left.
  - exists (new ++ [OpSetDueDate k (pretty (due s - today)%Z); OpUpdateCard k]).
    split; [by rewrite Hnew, Hl1, <-(assoc_L (++))|].
    apply Forall_app. split; [done|]. by repeat constructor.
Qed.

Lemma elem_of_find_cards n c k :
  k ∈ (map_to_list (cards_of n c)).*1
  ↔ ∃ cd, cards c !! k = Some cd ∧ c_nid cd = n.
Proof.
  rewrite list_elem_of_fmap. split.
  - intros ([k' cd] & -> & Hin). apply elem_of_map_to_list in Hin.
    apply map_lookup_filter_Some in Hin. naive_solver.
  - intros (cd & Hk & Hn). exists (k, cd). split; [done|].
    apply elem_of_map_to_list, map_lookup_filter_Some. done.
Qed.


(** ** Decks *)

Lemma with_did_same cd : with_did (did cd) cd = cd.
Proof. by destruct cd. Qed.

Lemma decks_id_run nm c :
  ∃ d c1, decks_id nm c = Done d c1
    ∧ decks c1 !! nm = Some d ∧ decks c ⊆ decks c1
    ∧ notes c1 = notes c ∧ cards c1 = cards c ∧ models c1 = models c
    ∧ (is_Some (decks c !! nm) → c1 = c)
    ∧ ∃ new, oplog c1 = new ++ oplog c ∧ ∀ o, o ∈ new → ∃ d', o = OpNewDeck nm d'.
Proof.
  unfold decks_id. destruct (decks c !! nm) as [d|] eqn:Hd.
  - exists d, c. split_and!; try done. exists []. split; [done|]. by intros o ?%elem_of_nil.
  - eexists _, _. split; [done|]. cbn. split_and!; try done.
    + by rewrite lookup_insert_eq.
    + by apply insert_subseteq.
    + eexists [_]. split; [done|]. intros o ->%list_elem_of_singleton. eauto.
Qed.

Lemma move_loop d (l : list (nat * Card)) : ∀ c,
  NoDup l.*1 → (∀ k cd, (k, cd) ∈ l → cards c !! k = Some cd) →
  ∃ c', for_each l (move_card d) c = Done tt c'
    ∧ (∀ k, cards c' !! k
            = if decide (k ∈ l.*1) then with_did d <$> cards c !! k else cards c !! k)
    ∧ notes c' = notes c ∧ decks c' = decks c ∧ models c' = models c
    ∧ (∃ new, oplog c' = new ++ oplog c ∧ ∀ o, o ∈ new → ∃ k, o = OpFlushCard k)
    ∧ ((∀ kc, kc ∈ l → did kc.2 = d) → c' = c).
Proof.
  induction l as [|[k cd] l IH]; intros c Hnd Hin.
  { exists c. split_and!; try done. exists []. split; [done|]. by intros o ?%elem_of_nil. }
  rewrite fmap_cons in Hnd. apply NoDup_cons in Hnd as [Hk Hnd]. cbn [fst] in Hk.
  pose proof (Hin k cd (list_elem_of_here _ _)) as Hcd.
  set (c1 := col_of (move_card d (k, cd) c)).
  assert (Hstep : move_card d (k, cd) c = Done tt c1
    ∧ cards c1 = <[k := with_did d cd]> (cards c)
    ∧ notes c1 = notes c ∧ decks c1 = decks c ∧ models c1 = models c
    ∧ (∃ new, oplog c1 = new ++ oplog c ∧ ∀ o, o ∈ new → ∃ k, o = OpFlushCard k)
    ∧ (did cd = d → c1 = c)).
  { unfold c1, move_card. cbn [fst snd]. destruct (decide (did cd ≠ d)) as [Hne|Heq].
    - cbn. split_and!; try done. eexists [_]. split; [done|].
      intros o ->%list_elem_of_singleton. eauto.
    - apply dec_stable in Heq. cbn. split_and!; try done.
      + subst d. rewrite with_did_same. by rewrite insert_id.
      + exists []. split; [done|]. by intros o ?%elem_of_nil. }
  destruct Hstep as (Hrun & Hc1 & Hn1 & Hd1 & Hm1 & (new1 & Hl1 & Hnew1) & Hsame1).
  destruct (IH c1 Hnd) as (c' & Hrun' & Hc' & Hn' & Hd' & Hm' & (new' & Hl' & Hnew') & Hsame').
  { intros j cdj Hj. rewrite Hc1, lookup_insert_ne; [apply Hin; by right|].
    intros ->. apply Hk. apply list_elem_of_fmap. by exists (j, cdj). }
  exists c'. split; [simpl; by rewrite (bind_done _ _ _ _ _ Hrun)|].
  split_and!; try congruence.
  - intros j. rewrite Hc', Hc1, fmap_cons. cbn [fst].
    destruct (decide (j = k)) as [->|Hne].
    + rewrite decide_False by done. rewrite decide_True by set_solver.
      by rewrite lookup_insert_eq, Hcd.
    + rewrite lookup_insert_ne by done.
      destruct (decide (j ∈ l.*1)); [by rewrite decide_True by set_solver|].
      by rewrite decide_False by set_solver.
  - exists (new' ++ new1). split; [by rewrite Hl', Hl1, (assoc_L (++))|].
    intros o [?|?]%elem_of_app; eauto.
  - intros Hall. rewrite Hsame'; [apply Hsame1|].
    + apply (Hall (k, cd)). by left.
    + intros kc Hkc. apply Hall. by right.
Qed.

Lemma update_deck_run tw_note anki_note default_deck c :
  ∃ d c1 c', decks_id (or_ (target_deck tw_note) default_deck) c = Done d c1
    ∧ _update_deck tw_note anki_note default_deck c = Done tt c'
    ∧ cards c' = moved (nid anki_note) d <$> cards c
    ∧ notes c' = notes c ∧ decks c' = decks c1 ∧ models c' = models c
    ∧ (∃ new, oplog c' = new ++ oplog c1 ∧ ∀ o, o ∈ new → ∃ k, o = OpFlushCard k)
    ∧ ((∀ k cd, cards c !! k = Some cd → c_nid cd = nid anki_note → did cd = d) →
       c' = c1).
Proof.
  destruct (decks_id_run (or_ (target_deck tw_note) default_deck) c)
    as (d & c1 & Hrun1 & Hd1 & Hsub1 & Hn1 & Hc1 & Hm1 & Hsame1 & Hl1).
  destruct (move_loop d (map_to_list (cards_of (nid anki_note) c1)) c1)
    as (c' & Hrun' & Hc' & Hn' & Hd' & Hm' & Hl' & Hsame').
  { apply NoDup_fst_map_to_list. }
  { intros k cd Hin%elem_of_map_to_list. by apply map_lookup_filter_Some in Hin as [? _]. }
  exists d, c1, c'. split; [done|]. split.
  { unfold _update_deck. rewrite (bind_done _ _ _ _ _ Hrun1).
    unfold note_cards, bind, get. done. }
  split_and!; try congruence.
  - apply map_eq. intros k. rewrite Hc', lookup_fmap, Hc1. unfold moved.
    destruct (cards c !! k) as [cd|] eqn:Hk; simpl.
    + destruct (decide (c_nid cd = nid anki_note)) as [Hn|Hn].
      * rewrite decide_True; [done|]. apply elem_of_find_cards. rewrite Hc1. eauto.
      * rewrite decide_False; [done|].
        intros (cd0 & Hk0 & Hn0)%elem_of_find_cards. rewrite Hc1 in Hk0. congruence.
    + by destruct (decide _).
  - intros Hall. apply Hsame'. intros [k cd] Hin%elem_of_map_to_list.
    apply map_lookup_filter_Some in Hin as [Hk Hn]. rewrite Hc1 in Hk. eauto.
Qed.

(** The seeder always ends normally; it touches the cards of the note
    only, and logs nothing but its own two calls. *)
Lemma seeding_run tw_note anki_note c :
  ∃ c', _set_initial_scheduling tw_note anki_note c = Done tt c'
    ∧ cards c' = seeded_for tw_note (nid anki_note) <$> cards c
    ∧ notes c' = notes c ∧ decks c' = decks c ∧ models c' = models c
    ∧ (∃ new, oplog c' = new ++ oplog c ∧ Forall (λ o, is_seed o = true) new)
    ∧ (schedule tw_note = None → c' = c).
Proof.
  unfold _set_initial_scheduling, seeded_for.
  destruct (schedule tw_note) as [s|] eqn:Hs.
  2:{ exists c. split_and!; try done.
      - apply map_eq. intros k. rewrite lookup_fmap.
        destruct (cards c !! k) as [cd|]; [|done]. simpl. by destruct (decide _).
      - by exists []. }
  unfold find_cards_nid, bind, get.
  destruct (seed_loop s (map_to_list (cards_of (nid anki_note) c)).*1 c)
    as (c' & Hrun & Hc' & Hn' & Hd' & Hm' & _ & Hl').
  { apply NoDup_fst_map_to_list. }
  { intros k (cd & Hk & _)%elem_of_find_cards. eauto. }
  exists c'. split_and!; try done.
  apply map_eq. intros k. rewrite Hc', lookup_fmap.
  destruct (cards c !! k) as [cd|] eqn:Hk; simpl.
  - destruct (decide (c_nid cd = nid anki_note)) as [Hn|Hn].
    + rewrite decide_True; [done|]. apply elem_of_find_cards. eauto.
    + rewrite decide_False; [done|].
      intros (cd0 & Hk0 & Hn0)%elem_of_find_cards. congruence.
  - by destruct (decide _).
Qed.

(** ** Adding a note *)

Lemma add_cards_run n d (ords : list nat) : ∀ c,
  let c' := foldl (add_card n d) c ords in
  notes c' = notes c ∧ decks c' = decks c ∧ models c' = models c
  ∧ oplog c' = oplog c
  ∧ (∀ k cd, cards c !! k = Some cd → cards c' !! k = Some cd)
  ∧ (∀ k cd, cards c' !! k = Some cd →
       cards c !! k = Some cd
       ∨ (cards c !! k = None ∧ ∃ o, o ∈ ords ∧ cd = new_card n o d)).
Proof.
  induction ords as [|o ords IH]; intros c; cbn [foldl].
  { split_and!; try done. eauto. }
  destruct (IH (add_card n d c o)) as (Hn & Hd & Hm & Hl & Hold & Hnew).
  assert (Hfresh : cards c !! fresh (dom (cards c)) = None).
  { apply not_elem_of_dom, is_fresh. }
  split_and!; try done.
  - intros k cd Hk. apply Hold. cbn. rewrite lookup_insert_ne; [done|].
    intros <-. congruence.
  - intros k cd Hk. apply Hnew in Hk as [Hk|(Hk & o' & Ho' & ->)]; cbn in Hk.
    + destruct (decide (fresh (dom (cards c)) = k)) as [<-|Hne].
      * rewrite lookup_insert_eq in Hk. injection Hk as <-. right.
        split; [done|]. exists o. split; [by left|done].
      * rewrite lookup_insert_ne in Hk by done. by left.
    + right. split.
      * destruct (decide (fresh (dom (cards c)) = k)) as [<-|Hne]; [done|].
        by rewrite lookup_insert_ne in Hk.
      * exists o'. split; [by right|done].
Qed.

Lemma fresh_nid c :
  notes c !! fresh (used_nids c) = None
  ∧ ∀ k cd, cards c !! k = Some cd → c_nid cd ≠ fresh (used_nids c).
Proof.
  pose proof (is_fresh (used_nids c)) as Hf. unfold used_nids in Hf at 2.
  apply not_elem_of_union in Hf as [Hf1 Hf2]. split.
  - by apply not_elem_of_dom.
  - intros k cd Hk Heq. apply Hf2, elem_of_map_img. exists k.
    by rewrite lookup_fmap, Hk, <-Heq.
Qed.

Lemma add_note_run r d c :
  ∃ c', add_note r d c = Done {| nid := fresh (used_nids c); nrow := r |} c'
    ∧ notes c' = <[fresh (used_nids c) := r]> (notes c)
    ∧ decks c' = decks c ∧ models c' = models c
    ∧ oplog c' = OpAddNote (fresh (used_nids c)) d :: oplog c
    ∧ (∀ k cd, cards c !! k = Some cd → cards c' !! k = Some cd)
    ∧ (∀ k cd, cards c' !! k = Some cd →
         cards c !! k = Some cd
         ∨ (cards c !! k = None
            ∧ ∃ o, o ∈ card_ords r ∧ cd = new_card (fresh (used_nids c)) o d)).
Proof.
  eexists. split; [reflexivity|].
  destruct (add_cards_run (fresh (used_nids c)) d (card_ords r)
              (set_notes (insert (fresh (used_nids c)) r) c))
    as (Hn & Hd & Hm & Hl & Hold & Hnew).
  cbn. split_and!; try done. by rewrite Hl.
Qed.

(** The add handling of one id: a note with a new id, in the deck of the
    source note, its cards seeded; nothing that was there changes. *)
Lemma add_one_run default_deck (m : gmap string TwNote) x tw nt c :
  m !! x = Some tw → models c !! name (model tw) = Some nt →
  ∃ d c1 n c',
    decks_id (or_ (target_deck tw) default_deck) c = Done d c1
    ∧ add_one default_deck m x c = Done tt c'
    ∧ notes c !! n = None ∧ (∀ k cd, cards c !! k = Some cd → c_nid cd ≠ n)
    ∧ notes c' = <[n := update_row tw (new_note (name (model tw)) nt)]> (notes c)
    ∧ decks c' = decks c1 ∧ models c' = models c
    ∧ (∀ k cd, cards c !! k = Some cd → cards c' !! k = Some cd)
    ∧ (∀ k cd, cards c' !! k = Some cd →
         cards c !! k = Some cd
         ∨ (cards c !! k = None ∧ c_nid cd = n ∧ did cd = d))
    ∧ (∃ new, oplog c' = new ++ oplog c ∧ Forall (λ o, add_op o = true) new)
    ∧ ∃ seed deck,
        oplog c' = seed ++ OpAddNote n d :: deck ++ oplog c
        ∧ Forall (λ o, is_seed o = true) seed
        ∧ Forall (λ o, is_seed o = false) deck.
Proof.
  intros Hm Hnt.
  destruct (decks_id_run (or_ (target_deck tw) default_deck) c)
    as (d & c1 & Hrun1 & Hd1 & Hsub1 & Hn1 & Hc1 & Hm1 & _ & new1 & Hl1 & Hnew1).
  destruct (add_note_run (update_row tw (new_note (name (model tw)) nt)) d c1)
    as (c2 & Hrun2 & Hn2 & Hd2 & Hm2 & Hl2 & Hold2 & Hnew2).
  destruct (seeding_run tw {| nid := fresh (used_nids c1);
      nrow := update_row tw (new_note (name (model tw)) nt) |} c2)
    as (c' & Hrun' & Hc' & Hn' & Hd' & Hm' & (new' & Hl' & Hnew') & _).
  destruct (fresh_nid c1) as [Hf1 Hf2]. rewrite Hn1 in Hf1.
  exists d, c1, (fresh (used_nids c1)), c'. split; [done|]. split.
  { unfold add_one. rewrite Hm. cbn [of_option]. unfold bind at 1. cbn [ret].
    unfold bind at 1. unfold models_by_name, get. rewrite Hnt.
    unfold bind at 1. cbn [of_option ret].
    unfold bind at 1. cbn [nrow update_fields]. rewrite Hrun1.
    unfold bind. by rewrite Hrun2. }
  split_and!; try congruence.
  - intros k cd Hk. apply (Hf2 k). by rewrite Hc1.
  - intros k cd Hk. rewrite Hc', lookup_fmap.
    rewrite <-Hc1 in Hk. rewrite (Hold2 _ _ Hk). simpl.
    unfold seeded_for. cbn [nid]. rewrite decide_False; [done|]. by eapply Hf2.
  - intros k cd Hk. rewrite Hc', lookup_fmap in Hk.
    destruct (cards c2 !! k) as [cd2|] eqn:Hk2; [|done].
    simpl in Hk. injection Hk as <-. unfold seeded_for. cbn [nid].
    apply Hnew2 in Hk2 as [Hk2|(Hk2 & o & Ho & ->)].
    + left. rewrite decide_False by (by eapply Hf2). by rewrite <-Hc1.
    + right. rewrite <-Hc1. split; [done|]. cbn [new_card c_nid].
      rewrite decide_True by done. by destruct (schedule tw).
  - exists (new' ++ OpAddNote (fresh (used_nids c1)) d :: new1). split.
    + by rewrite Hl', Hl2, Hl1, <-(assoc_L (++)).
    + apply Forall_app. split.
      * eapply Forall_impl; [done|]. by intros [].
      * constructor; [done|]. apply Forall_forall. by intros o [d' ->]%Hnew1.
  - exists new', new1. split_and!; [by rewrite Hl', Hl2, Hl1|done|].
    apply Forall_forall. by intros o [d' ->]%Hnew1.
Qed.

(** C10: a source note whose target deck is absent or the empty string
    goes to the caller's default deck, in the edit path ([_update_deck])
    and in the add path alike: afterwards every card of the note is in the
    deck the collection has under the default name. *)
Theorem falsy_target_deck_is_default tw_note default_deck :
  target_deck tw_note = None ∨ target_deck tw_note = Some "" →
  or_ (target_deck tw_note) default_deck = default_deck
  ∧ (∀ anki_note c, ∃ d c',
       _update_deck tw_note anki_note default_deck c = Done tt c'
       ∧ decks c' !! default_deck = Some d
       ∧ ∀ k cd, cards c' !! k = Some cd → c_nid cd = nid anki_note → did cd = d)
  ∧ (∀ (m : gmap string TwNote) note_id c,
       m !! note_id = Some tw_note →
       is_Some (models c !! name (model tw_note)) →
       ∃ d n c',
         add_one default_deck m note_id c = Done tt c'
         ∧ decks c' !! default_deck = Some d
         ∧ notes c !! n = None ∧ is_Some (notes c' !! n)
         ∧ ∀ k cd, cards c' !! k = Some cd → c_nid cd = n → did cd = d).
Proof.
  intros Hfalsy.
  assert (Hor : or_ (target_deck tw_note) default_deck = default_deck).
  { by destruct Hfalsy as [-> | ->]. }
  split; [done|]. split.
  - intros anki_note c.
    destruct (update_deck_run tw_note anki_note default_deck c)
      as (d & c1 & c' & Hrun1 & Hrun' & Hc' & Hn' & Hd' & Hm' & _ & _).
    destruct (decks_id_run (or_ (target_deck tw_note) default_deck) c)
      as (d0 & c0 & Hrun0 & Hd0 & _).
    rewrite Hrun1 in Hrun0. injection Hrun0 as <- <-.
    exists d, c'. split; [done|]. split; [by rewrite Hd', <-Hor|].
    intros k cd Hk Hn. rewrite Hc', lookup_fmap in Hk.
    destruct (cards c !! k) as [cd0|]; [|done]. simpl in Hk. injection Hk as <-.
    unfold moved in *. destruct (decide (c_nid cd0 = nid anki_note)); [done|].
    done.
  - intros m note_id c Hm [nt Hnt].
    destruct (add_one_run default_deck m note_id tw_note nt c Hm Hnt)
      as (d & c1 & n & c' & Hrun1 & Hrun' & Hfresh & Hfresh' & Hn' & Hd' & Hm'
          & Hold & Hnew & _).
    destruct (decks_id_run (or_ (target_deck tw_note) default_deck) c)
      as (d0 & c0 & Hrun0 & Hd0 & _).
    rewrite Hrun1 in Hrun0. injection Hrun0 as <- <-.
    exists d, n, c'. split_and!; try done.
    + by rewrite Hd', <-Hor.
    + rewrite Hn', lookup_insert_eq. eauto.
    + intros k cd Hk Hcn. apply Hnew in Hk as [Hk|(_ & _ & Hk)]; [|done].
      by destruct (Hfresh' k cd Hk).
Qed.

(** ** The type migrator *)

Lemma change_note_type_fatal tw_note anki_note c :
  by_name (mname (nrow anki_note)) = None →
  _change_note_type tw_note anki_note c
  = Raise (AssertionError (unsupported_type (mname (nrow anki_note)))) c.
Proof. intros Hn. unfold _change_note_type. by rewrite Hn. Qed.

Lemma change_note_type_run tw_note anki_note old nt r c :
  by_name (mname (nrow anki_note)) = Some old →
  models c !! name (model tw_note) = Some nt →
  notes c !! nid anki_note = Some r →
  _change_note_type tw_note anki_note c
  = Done {| nid := nid anki_note; nrow := migrated tw_note old nt r |}
      (log (OpChangeNotetype (nid anki_note) (name (model tw_note)))
         (set_cards
            (omap (remap_card (nid anki_note) (card_remap old (model tw_note))))
            (set_notes (insert (nid anki_note) (migrated tw_note old nt r)) c))).
Proof.
  intros Hold Hnt Hr.
  assert (Halter : alter (λ r0, {| mname := name (model tw_note);
      items := remap_items (flds nt) (field_remap old (model tw_note)) (items r0) |})
      (nid anki_note) (notes c)
    = <[nid anki_note := migrated tw_note old nt r]> (notes c)).
  { apply map_eq. intros k. rewrite lookup_alter. case_decide as Hk.
    - subst k. by rewrite lookup_insert_eq, Hr.
    - by rewrite lookup_insert_ne. }
  unfold _change_note_type. rewrite Hold.
  unfold models_by_name, bind, get. rewrite Hnt. cbn.
  rewrite Halter, lookup_insert_eq. cbn. rewrite Halter, lookup_insert_eq.
  unfold ret, set_notes. by rewrite Halter.
Qed.

(** C7: when the note an edit works on has a type that is not a recognized
    one (and the source note's type is), the migrator fails on its
    assertion without touching the collection, and the loop over the edits
    ends there: the collection is as the earlier iterations left it and
    the remaining ids are not processed. *)
Theorem unrecognized_type_is_fatal default_deck (emap : gmap string TwNote)
    (l1 l2 : list string) x st c st1 c1 anki_note tw_note m :
  for_fold l1 (edit_one default_deck emap) st c = Done st1 c1 →
  st1.1 !! x = Some anki_note →
  emap !! x = Some tw_note →
  by_name (mname (nrow anki_note)) = None →
  by_name (name (model tw_note)) = Some m →
  _change_note_type tw_note anki_note c1
  = Raise (AssertionError (unsupported_type (mname (nrow anki_note)))) c1
  ∧ for_fold (l1 ++ x :: l2) (edit_one default_deck emap) st c
    = Raise (AssertionError (unsupported_type (mname (nrow anki_note)))) c1.
Proof.
  intros Hrun Hx Htw Hnone Hsome.
  split; [by apply change_note_type_fatal|].
  assert (Hstep : edit_one default_deck emap x st1 c1
    = Raise (AssertionError (unsupported_type (mname (nrow anki_note)))) c1).
  { unfold edit_one. rewrite Hx, Htw. cbn [of_option].
    unfold bind at 1. cbn [ret]. unfold bind at 1. cbn [ret].
    unfold bind at 1. unfold type_check, model_equal.
    rewrite bool_decide_eq_false_2 by congruence. cbn [negb].
    by rewrite change_note_type_fatal. }
  clear Hx. revert st c Hrun. induction l1 as [|y l1 IH]; intros st c Hrun.
  - cbn in Hrun. injection Hrun as -> ->. cbn [app for_fold].
    by rewrite (bind_raise _ _ _ _ _ Hstep).
  - cbn [app for_fold] in *. apply bind_inv in Hrun as (st' & c' & Hy & Hrun).
    rewrite (bind_done _ _ _ _ _ Hy). by apply IH.
Qed.

(** C4: when the type of the target note differs from the source note's,
    the migration is done first: it ends normally, the note the field
    check then works on is the one re-read from the collection after the
    change, of the source note's type, and the fields the program held
    for the note before the migration have no part in the outcome. *)
Theorem migration_before_field_check default_deck (emap : gmap string TwNote)
    x st tw_note anki_note old nt r c :
  st.1 !! x = Some anki_note →
  emap !! x = Some tw_note →
  model_equal tw_note anki_note = false →
  by_name (mname (nrow anki_note)) = Some old →
  models c !! name (model tw_note) = Some nt →
  notes c !! nid anki_note = Some r →
  ∃ new_note c',
    _change_note_type tw_note anki_note c = Done new_note c'
    ∧ oplog c' = OpChangeNotetype (nid anki_note) (name (model tw_note)) :: oplog c
    ∧ nid new_note = nid anki_note
    ∧ notes c' !! nid anki_note = Some (nrow new_note)
    ∧ model_equal tw_note new_note = true
    ∧ edit_one default_deck emap x st c
      = (do checked <- field_check tw_note new_note;
         _update_deck tw_note checked.1 default_deck ;;
         ret (<[x := checked.1]> st.1, if checked.2 then S st.2 else st.2)) c'
    ∧ ∀ stale_items,
        edit_one default_deck emap x
          (<[x := {| nid := nid anki_note;
                     nrow := {| mname := mname (nrow anki_note);
                                items := stale_items |} |}]> st.1, st.2) c
        = edit_one default_deck emap x st c.
Proof.
  intros Hx Htw Hneq Hold Hnt Hr.
  pose proof (change_note_type_run tw_note anki_note old nt r c Hold Hnt Hr) as Hrun.
  set (c' := log _ _) in Hrun.
  assert (Hedit : ∀ st0 an0, st0.1 !! x = Some an0 →
    nid an0 = nid anki_note → mname (nrow an0) = mname (nrow anki_note) →
    edit_one default_deck emap x st0 c
    = (do checked <- field_check tw_note
           {| nid := nid anki_note; nrow := migrated tw_note old nt r |};
       _update_deck tw_note checked.1 default_deck ;;
       ret (<[x := checked.1]> st0.1, if checked.2 then S st0.2 else st0.2)) c').
  { intros st0 an0 Hx0 Hnid0 Hmn0.
    unfold edit_one. rewrite Hx0, Htw. cbn [of_option].
    unfold bind at 1. cbn [ret]. unfold bind at 1. cbn [ret].
    unfold bind at 1. unfold type_check, model_equal.
    unfold model_equal in Hneq. apply bool_decide_eq_false in Hneq.
    rewrite bool_decide_eq_false_2 by congruence. cbn [negb].
    rewrite (change_note_type_run tw_note an0 old nt r c) by congruence.
    by rewrite Hnid0. }
  eexists _, c'. split; [exact Hrun|]. split_and!; try done.
  - cbn. by rewrite lookup_insert_eq.
  - unfold model_equal. by apply bool_decide_eq_true.
  - by apply (Hedit st anki_note).
  - intros stale_items. rewrite (Hedit st anki_note) by done.
    rewrite (Hedit _ {| nid := nid anki_note;
                 nrow := {| mname := mname (nrow anki_note); items := stale_items |} |});
      [|by cbn; rewrite lookup_insert_eq|done..].
    cbn [fst snd]. unfold bind.
    destruct (field_check _ _ c') as [checked c2|]; [|done].
    destruct (_update_deck _ _ _ c2); [|done]. by rewrite insert_insert_eq.
Qed.

(** ** What the edit handling leaves alone *)

Lemma edit_frame_refl c : edit_frame c c.
Proof. split; [apply keeps_schedules_refl | apply logs_only_refl]. Qed.

Lemma edit_frame_trans c1 c2 c3 :
  edit_frame c1 c2 → edit_frame c2 c3 → edit_frame c1 c3.
Proof.
  intros [? ?] [? ?]. split;
    [by eapply keeps_schedules_trans | by eapply logs_only_trans].
Qed.

Lemma update_deck_frame tw_note anki_note default_deck :
  respects edit_frame (_update_deck tw_note anki_note default_deck).
Proof.
  intros c.
  destruct (update_deck_run tw_note anki_note default_deck c)
    as (d & c1 & c' & Hrun1 & Hrun' & Hc' & _ & _ & _ & (new & Hl' & Hnew) & _).
  destruct (decks_id_run (or_ (target_deck tw_note) default_deck) c)
    as (d0 & c0 & Hrun0 & _ & _ & _ & _ & _ & _ & new1 & Hl1 & Hnew1).
  rewrite Hrun1 in Hrun0. injection Hrun0 as <- <-.
  rewrite Hrun'. cbn [col_of]. split.
  - intros k cd' Hk. rewrite Hc', lookup_fmap in Hk.
    destruct (cards c !! k) as [cd|]; [|done]. simpl in Hk. injection Hk as <-.
    exists cd. split; [done|]. unfold moved. by destruct (decide _).
  - exists (new ++ new1). split; [by rewrite Hl', Hl1, (assoc_L (++))|].
    apply Forall_app. split; apply Forall_forall.
    + by intros o [k ->]%Hnew.
    + by intros o [k ->]%Hnew1.
Qed.

Lemma models_change_frame n new_name new_nt fmap cmap :
  respects edit_frame (models_change n new_name new_nt fmap cmap).
Proof.
  apply respects_modify. intros c. split.
  - intros k cd' Hk. cbn in Hk. rewrite lookup_omap in Hk.
    destruct (cards c !! k) as [cd|]; [|done]. simpl in Hk.
    exists cd. split; [done|]. unfold remap_card in Hk.
    destruct (decide _); [|by injection Hk as <-].
    destruct (cmap (ord cd)); [|done]. simpl in Hk. by injection Hk as <-.
  - by apply logs_only_log.
Qed.

Lemma getNote_respects R n :
  (∀ c, R c c) → (∀ c1 c2 c3, R c1 c2 → R c2 c3 → R c1 c3) →
  respects R (getNote n).
Proof.
  intros Hrefl Htrans. unfold getNote. apply respects_bind; [done|by apply respects_get|].
  intros [r|]; [by apply respects_ret | by apply respects_raise].
Qed.

Lemma change_note_type_frame tw_note anki_note :
  respects edit_frame (_change_note_type tw_note anki_note).
Proof.
  unfold _change_note_type. destruct (by_name _); [|apply respects_raise, edit_frame_refl].
  apply respects_bind; [apply edit_frame_trans|apply respects_get, edit_frame_refl|].
  intros new_model.
  apply respects_bind; [apply edit_frame_trans|apply respects_of_option, edit_frame_refl|].
  intros nt.
  apply respects_bind; [apply edit_frame_trans|apply models_change_frame|]. intros _.
  apply respects_bind; [apply edit_frame_trans|apply respects_get, edit_frame_refl|].
  intros found.
  apply respects_bind; [apply edit_frame_trans|apply respects_of_option, edit_frame_refl|].
  intros first. apply getNote_respects; [apply edit_frame_refl|apply edit_frame_trans].
Qed.

Lemma field_check_frame tw_note anki_note :
  respects edit_frame (field_check tw_note anki_note).
Proof.
  unfold field_check. destruct (negb _); [|apply respects_ret, edit_frame_refl].
  apply respects_bind; [apply edit_frame_trans| |intros _; apply respects_ret, edit_frame_refl].
  apply respects_modify. intros c. split.
  - intros k cd Hk. eauto.
  - by apply logs_only_log.
Qed.

Lemma edit_one_frame default_deck (emap : gmap string TwNote) x st :
  respects edit_frame (edit_one default_deck emap x st).
Proof.
  unfold edit_one.
  apply respects_bind; [apply edit_frame_trans|apply respects_of_option, edit_frame_refl|].
  intros anki_note.
  apply respects_bind; [apply edit_frame_trans|apply respects_of_option, edit_frame_refl|].
  intros tw_note.
  apply respects_bind; [apply edit_frame_trans| |].
  { unfold type_check. destruct (negb _);
      [apply change_note_type_frame | apply respects_ret, edit_frame_refl]. }
  intros an1.
  apply respects_bind; [apply edit_frame_trans|apply field_check_frame|].
  intros checked.
  apply respects_bind; [apply edit_frame_trans|apply update_deck_frame|].
  intros _. apply respects_ret, edit_frame_refl.
Qed.

(** ** What the run leaves alone before the edits *)

Lemma add_frame_refl c : add_frame c c.
Proof. split; [apply untouched_refl | apply logs_only_refl]. Qed.

Lemma add_frame_trans c1 c2 c3 :
  add_frame c1 c2 → add_frame c2 c3 → add_frame c1 c3.
Proof.
  intros [? ?] [? ?]. split; [by eapply untouched_trans | by eapply logs_only_trans].
Qed.

Lemma ensure_note_types_frame : respects add_frame ensure_note_types.
Proof.
  apply respects_for_each; [apply add_frame_refl|apply add_frame_trans|]. intros m.
  apply respects_bind; [apply add_frame_trans|apply respects_get, add_frame_refl|].
  intros [nt|]; [apply respects_ret, add_frame_refl|].
  unfold register. apply respects_modify. intros c. split.
  - by intros k cd Hk.
  - by apply logs_only_log.
Qed.

Lemma verify_note_types_frame : respects add_frame verify_note_types.
Proof.
  apply respects_for_each; [apply add_frame_refl|apply add_frame_trans|]. intros m.
  apply respects_bind; [apply add_frame_trans|apply respects_get, add_frame_refl|].
  intros [nt|]; [|apply respects_raise, add_frame_refl].
  destruct (decide _); [apply respects_ret | apply respects_raise]; apply add_frame_refl.
Qed.

Lemma keyed_note_respects R n :
  (∀ c, R c c) → (∀ c1 c2 c3, R c1 c2 → R c2 c3 → R c1 c3) →
  respects R (keyed_note n).
Proof.
  intros Hrefl Htrans. unfold keyed_note.
  apply respects_bind; [done|by apply respects_of_option|].
  intros k. by apply respects_ret.
Qed.

Lemma add_one_frame default_deck (emap : gmap string TwNote) x :
  respects add_frame (add_one default_deck emap x).
Proof.
  intros c. destruct (emap !! x) as [tw|] eqn:Hx.
  2:{ unfold add_one. rewrite Hx. apply add_frame_refl. }
  destruct (models c !! name (model tw)) as [nt|] eqn:Hnt.
  2:{ unfold add_one. rewrite Hx. cbn [of_option]. unfold bind at 1. cbn [ret].
      unfold bind at 1. unfold models_by_name, get. rewrite Hnt.
      apply add_frame_refl. }
  destruct (add_one_run default_deck emap x tw nt c Hx Hnt)
    as (d & c1 & n & c' & _ & Hrun & _ & _ & _ & _ & _ & Hold & _
        & (new & Hl & Hnew) & _).
  rewrite Hrun. cbn [col_of]. split; [done|].
  exists new. split; [done|]. eapply Forall_impl; [done|]. by intros [].
Qed.

Lemma add_loop_frame default_deck (emap : gmap string TwNote) l :
  respects add_frame (for_each l (add_one default_deck emap)).
Proof.
  apply respects_for_each; [apply add_frame_refl|apply add_frame_trans|].
  intros x. apply add_one_frame.
Qed.

(** ** What a whole run leaves alone *)

Lemma remove_notes_keeps ids : respects keeps_schedules (remove_notes ids).
Proof.
  apply respects_modify. intros c k cd Hk. cbn in Hk.
  apply map_lookup_filter_Some in Hk as [Hk _]. eauto.
Qed.

Lemma note_id_of_respects R (amap : gmap string Note) x :
  (∀ c, R c c) → (∀ c1 c2 c3, R c1 c2 → R c2 c3 → R c1 c3) →
  respects R (note_id_of amap x).
Proof.
  intros Hrefl Htrans. unfold note_id_of.
  apply respects_bind; [done|by apply respects_of_option|].
  intros n. by apply respects_ret.
Qed.

Lemma run_frame_of_untouched c c' : untouched c c' → run_frame c c'.
Proof. intros H. exists c'. split; [done|apply keeps_schedules_refl]. Qed.

Lemma run_frame_pre c c1 c' : untouched c c1 → run_frame c1 c' → run_frame c c'.
Proof.
  intros H1 (c2 & H2 & H3). exists c2. split; [by eapply untouched_trans|done].
Qed.

Lemma run_frame_bind {A B} (m : M A) (k : A → M B) :
  respects add_frame m → (∀ a, respects run_frame (k a)) →
  respects run_frame (bind m k).
Proof.
  intros Hm Hk. eapply (respects_seq add_frame run_frame); [| |done|done].
  - intros c1 c2 c3 [H12 _] H23. by eapply run_frame_pre.
  - intros c1 c2 [H12 _]. by apply run_frame_of_untouched.
Qed.

Lemma sync_frame tw_notes default_deck :
  respects run_frame (sync tw_notes default_deck).
Proof.
  unfold sync.
  apply run_frame_bind; [apply ensure_note_types_frame|]. intros _.
  apply run_frame_bind; [apply verify_note_types_frame|]. intros _.
  apply run_frame_bind; [apply respects_get, add_frame_refl|]. intros found.
  apply run_frame_bind.
  { apply respects_map_m; [apply add_frame_refl|apply add_frame_trans|].
    intros n. apply getNote_respects; [apply add_frame_refl|apply add_frame_trans]. }
  intros anki_notes.
  apply run_frame_bind.
  { apply respects_map_m; [apply add_frame_refl|apply add_frame_trans|].
    intros n. apply keyed_note_respects; [apply add_frame_refl|apply add_frame_trans]. }
  intros keyed.
  apply run_frame_bind.
  { apply respects_for_each; [apply add_frame_refl|apply add_frame_trans|].
    intros x. apply add_one_frame. }
  intros _.
  apply (respects_impl keeps_schedules).
  { intros c1 c2 H. exists c1. split; [apply untouched_refl|exact H]. }
  apply respects_bind; [apply keeps_schedules_trans| |].
  { apply (respects_impl edit_frame); [intros c1 c2 [H _]; exact H|].
    apply respects_for_fold; [apply edit_frame_refl|apply edit_frame_trans|].
    intros x st. apply edit_one_frame. }
  intros st.
  apply respects_bind; [apply keeps_schedules_trans| |].
  { apply respects_map_m; [apply keeps_schedules_refl|apply keeps_schedules_trans|].
    intros x. apply note_id_of_respects;
      [apply keeps_schedules_refl|apply keeps_schedules_trans]. }
  intros ids.
  apply respects_bind; [apply keeps_schedules_trans|apply remove_notes_keeps|].
  intros _. apply respects_ret, keeps_schedules_refl.
Qed.


(** ** The steps of one edit *)

Lemma type_check_inv tw_note anki_note c an1 c1 :
  type_check tw_note anki_note c = Done an1 c1 →
  (model_equal tw_note anki_note = true ∧ an1 = anki_note ∧ c1 = c)
  ∨ (model_equal tw_note anki_note = false
     ∧ ∃ old nt r,
         by_name (mname (nrow anki_note)) = Some old
         ∧ models c !! name (model tw_note) = Some nt
         ∧ notes c !! nid anki_note = Some r
         ∧ an1 = {| nid := nid anki_note; nrow := migrated tw_note old nt r |}
         ∧ c1 = log (OpChangeNotetype (nid anki_note) (name (model tw_note)))
                  (set_cards
                     (omap (remap_card (nid anki_note)
                              (card_remap old (model tw_note))))
                     (set_notes (insert (nid anki_note) (migrated tw_note old nt r)) c))).
Proof.
  unfold type_check. destruct (model_equal tw_note anki_note) eqn:Heq; cbn [negb].
  { intros [= <- <-]. by left. }
  intros Hrun. right. split; [done|].
  destruct (by_name (mname (nrow anki_note))) as [old|] eqn:Hold.
  2:{ by rewrite change_note_type_fatal in Hrun. }
  destruct (models c !! name (model tw_note)) as [nt|] eqn:Hnt.
  2:{ unfold _change_note_type in Hrun. rewrite Hold in Hrun.
      unfold models_by_name, bind, get in Hrun. by rewrite Hnt in Hrun. }
  destruct (notes c !! nid anki_note) as [r|] eqn:Hr.
  2:{ unfold _change_note_type in Hrun. rewrite Hold in Hrun.
      unfold models_by_name, bind, get in Hrun. rewrite Hnt in Hrun.
      cbn in Hrun. rewrite lookup_alter, decide_True, Hr in Hrun by done.
      by cbn in Hrun. }
  rewrite (change_note_type_run _ _ old nt r) in Hrun by done.
  injection Hrun as <- <-. by exists old, nt, r.
Qed.

Lemma field_check_inv tw_note anki_note c checked c1 :
  field_check tw_note anki_note c = Done checked c1 →
  (fields_equal tw_note anki_note = true ∧ checked = (anki_note, false) ∧ c1 = c)
  ∨ (fields_equal tw_note anki_note = false
     ∧ checked = (update_fields tw_note anki_note, true)
     ∧ c1 = log (OpFlushNote (nid anki_note))
              (set_notes (insert (nid anki_note)
                            (update_row tw_note (nrow anki_note))) c)).
Proof.
  unfold field_check. destruct (fields_equal tw_note anki_note); cbn [negb].
  - intros [= <- <-]. by left.
  - intros [= <- <-]. by right.
Qed.

Lemma edit_one_inv default_deck (emap : gmap string TwNote) x st c st' c' :
  edit_one default_deck emap x st c = Done st' c' →
  ∃ anki_note tw_note an1 c1 checked c2,
    st.1 !! x = Some anki_note ∧ emap !! x = Some tw_note
    ∧ type_check tw_note anki_note c = Done an1 c1
    ∧ field_check tw_note an1 c1 = Done checked c2
    ∧ _update_deck tw_note checked.1 default_deck c2 = Done tt c'
    ∧ st' = (<[x := checked.1]> st.1, if checked.2 then S st.2 else st.2).
Proof.
  unfold edit_one. intros Hrun.
  apply bind_inv in Hrun as (anki_note & c0 & [Hx ->]%of_option_inv & Hrun).
  apply bind_inv in Hrun as (tw_note & c0 & [Htw ->]%of_option_inv & Hrun).
  apply bind_inv in Hrun as (an1 & c1 & Htc & Hrun).
  apply bind_inv in Hrun as (checked & c2 & Hfc & Hrun).
  apply bind_inv in Hrun as ([] & c3 & Hud & Hrun).
  injection Hrun as <- <-. by exists anki_note, tw_note, an1, c1, checked, c2.
Qed.

(** ** Field writes *)

Lemma field_writes_app l1 l2 :
  field_writes (l1 ++ l2) = field_writes l1 + field_writes l2.
Proof. unfold field_writes. by rewrite filter_app, length_app. Qed.

Lemma field_writes_quiet l :
  Forall (λ o, quiet o = true) l → field_writes l = 0.
Proof.
  unfold field_writes. induction 1 as [|o l Ho _ IH]; [done|].
  rewrite filter_cons_False; [done|].
  unfold quiet in Ho. destruct (is_flush_note o); [done|]. by intros ?.
Qed.

Lemma writes_refl c : writes 0 c c.
Proof. by exists []. Qed.

Lemma writes_trans n1 n2 c1 c2 c3 :
  writes n1 c1 c2 → writes n2 c2 c3 → writes (n1 + n2) c1 c3.
Proof.
  intros (l1 & H1 & <-) (l2 & H2 & <-). exists (l2 ++ l1). split.
  - by rewrite H2, H1, (assoc_L (++)).
  - rewrite field_writes_app. lia.
Qed.

Lemma writes_quiet c c' : logs_only quiet c c' → writes 0 c c'.
Proof. intros (new & Hl & Hq). exists new. split; [done|by apply field_writes_quiet]. Qed.

Lemma edit_frame_quiet tw_note anki_note c an1 c1 :
  type_check tw_note anki_note c = Done an1 c1 → writes 0 c c1.
Proof.
  intros [(_ & _ & ->)|(_ & old & nt & r & _ & _ & _ & _ & ->)]%type_check_inv.
  - apply writes_refl.
  - by exists [OpChangeNotetype (nid anki_note) (name (model tw_note))].
Qed.

Lemma update_deck_quiet tw_note anki_note default_deck c c' :
  _update_deck tw_note anki_note default_deck c = Done tt c' → writes 0 c c'.
Proof.
  intros Hrun.
  destruct (update_deck_run tw_note anki_note default_deck c)
    as (d & c1 & c0 & Hrun1 & Hrun' & _ & _ & _ & _ & (new & Hl' & Hnew) & _).
  destruct (decks_id_run (or_ (target_deck tw_note) default_deck) c)
    as (d0 & c00 & Hrun0 & _ & _ & _ & _ & _ & _ & new1 & Hl1 & Hnew1).
  rewrite Hrun1 in Hrun0. injection Hrun0 as <- <-.
  rewrite Hrun in Hrun'. injection Hrun' as <-.
  apply writes_quiet. exists (new ++ new1).
  split; [by rewrite Hl', Hl1, (assoc_L (++))|].
  apply Forall_app. split; apply Forall_forall.
  - by intros o [k ->]%Hnew.
  - by intros o [k ->]%Hnew1.
Qed.

(** The count the edit loop carries goes up by the number of field writes
    it logs. *)
Lemma edit_one_writes default_deck (emap : gmap string TwNote) x st c st' c' :
  edit_one default_deck emap x st c = Done st' c' →
  ∃ n, writes n c c' ∧ st'.2 = st.2 + n.
Proof.
  intros (an & tw & an1 & c1 & checked & c2 & _ & _ & Htc & Hfc & Hud & ->)%edit_one_inv.
  apply edit_frame_quiet in Htc. apply update_deck_quiet in Hud.
  apply field_check_inv in Hfc as [(_ & -> & ->)|(_ & -> & ->)]; cbn [fst snd].
  - exists 0. split; [|lia]. apply (writes_trans 0 0 c c1 c'); [done|done].
  - exists 1. split; [|lia].
    apply (writes_trans 0 1 c c1 c'); [done|].
    eapply (writes_trans 1 0); [|done].
    by exists [OpFlushNote (nid an1)].
Qed.

Lemma edit_loop_writes default_deck (emap : gmap string TwNote) l : ∀ st c st' c',
  for_fold l (edit_one default_deck emap) st c = Done st' c' →
  ∃ n, writes n c c' ∧ st'.2 = st.2 + n.
Proof.
  induction l as [|x l IH]; intros st c st' c' Hrun; cbn [for_fold] in Hrun.
  - injection Hrun as <- <-. exists 0. split; [apply writes_refl|lia].
  - apply bind_inv in Hrun as (st1 & c1 & Hx & Hrun).
    apply edit_one_writes in Hx as (n1 & Hw1 & Hn1).
    apply IH in Hrun as (n2 & Hw2 & Hn2).
    exists (n1 + n2). split; [by eapply writes_trans|lia].
Qed.

(** ** The precondition check *)

Lemma ensure_loop (l : list ModelData) : ∀ c,
  ∃ c0, for_each l (λ m, do r <- models_by_name (name m);
                         match r with Some _ => ret tt | None => register m end) c
        = Done tt c0
    ∧ notes c0 = notes c ∧ cards c0 = cards c ∧ decks c0 = decks c
    ∧ ((∀ m, m ∈ l → is_Some (models c !! name m)) → c0 = c).
Proof.
  induction l as [|m l IH]; intros c.
  { by exists c. }
  cbn [for_each]. unfold bind at 1. unfold models_by_name at 1, bind at 1, get.
  destruct (models c !! name m) as [nt|] eqn:Hm.
  - destruct (IH c) as (c0 & Hrun & Hn & Hc & Hd & Hsame). exists c0.
    split_and!; try done. intros Hall. apply Hsame. intros m' Hm'. apply Hall. by right.
  - destruct (IH (log (OpAddNotetype (name m))
        (set_models (insert (name m) {| flds := fields m; tmpls := templates m |}) c)))
      as (c0 & Hrun & Hn & Hc & Hd & Hsame).
    exists c0. split_and!; try done. intros Hall.
    destruct (Hall m) as [? ?]; [by left|congruence].
Qed.

Lemma ensure_run c :
  ∃ c0, ensure_note_types c = Done tt c0
    ∧ notes c0 = notes c ∧ cards c0 = cards c ∧ decks c0 = decks c
    ∧ (verified c → c0 = c).
Proof.
  destruct (ensure_loop all_note_types c) as (c0 & Hrun & Hn & Hc & Hd & Hsame).
  exists c0. split_and!; try done. intros Hv. apply Hsame. intros m Hm.
  rewrite (Hv m Hm). eauto.
Qed.

Lemma verify_loop (l : list ModelData) c c0 :
  for_each l (λ m, do r <- models_by_name (name m);
                   match r with
                   | Some nt =>
                       if decide (flds nt = fields m ∧ tmpls nt = templates m)
                       then ret tt else raise (AssertionError (name m))
                   | None => raise (AssertionError (name m))
                   end) c = Done tt c0 →
  c0 = c ∧ ∀ m, m ∈ l →
    models c !! name m = Some {| flds := fields m; tmpls := templates m |}.
Proof.
  induction l as [|m l IH]; cbn [for_each].
  { intros [= <-]. split; [done|]. by intros m ?%elem_of_nil. }
  unfold bind at 1. unfold models_by_name at 1, bind at 1, get.
  destruct (models c !! name m) as [[f t]|] eqn:Hm; [|done].
  destruct (decide _) as [[Hf Ht]|]; [|done]. cbn in Hf, Ht. subst f t.
  cbn [ret]. intros [-> Hall]%IH. split; [done|].
  intros m' [->|Hm']%elem_of_cons; [done|by apply Hall].
Qed.

Lemma verify_inv c c0 : verify_note_types c = Done tt c0 → c0 = c ∧ verified c.
Proof. apply verify_loop. Qed.

Lemma verify_run c : verified c → verify_note_types c = Done tt c.
Proof.
  unfold verified, verify_note_types.
  induction all_note_types as [|m l IH]; intros Hv; [done|].
  cbn [for_each]. unfold bind at 1. unfold models_by_name at 1, bind at 1, get.
  rewrite (Hv m) by by left. cbn [flds tmpls]. rewrite decide_True by done.
  cbn [ret]. apply IH. intros m' Hm'. apply Hv. by right.
Qed.

(** ** Reading the Anki notes *)

Lemma getNotes_run (l : list (nat * NoteRow)) c :
  (∀ k r, (k, r) ∈ l → notes c !! k = Some r) →
  map_m getNote l.*1 c = Done ((λ kr, {| nid := kr.1; nrow := kr.2 |}) <$> l) c.
Proof.
  induction l as [|[k r] l IH]; intros Hl; [done|].
  cbn [fmap list_fmap map_m fst snd]. unfold bind at 1, getNote at 1, bind at 1, get.
  rewrite (Hl k r) by by left. cbn [ret]. unfold bind at 1.
  rewrite IH; [done|]. intros k' r' H'. apply Hl. by right.
Qed.

Lemma keyed_inv (l : list Note) c keyed c' :
  map_m keyed_note l c = Done keyed c' →
  c' = c ∧ keyed.*2 = l ∧ Forall (λ kn, twid_of (nrow kn.2) = Some kn.1) keyed.
Proof.
  revert keyed. induction l as [|n l IH]; intros keyed; cbn [map_m].
  { by intros [= <- <-]. }
  intros Hrun.
  apply bind_inv in Hrun as ([x n'] & c1 & Hn & Hrun).
  apply bind_inv in Hrun as (ys & c2 & Hl & Hrun). injection Hrun as <- <-.
  unfold keyed_note in Hn.
  apply bind_inv in Hn as (x' & c3 & [Hx ->]%of_option_inv & Hn).
  injection Hn as <- <- <-.
  apply IH in Hl as (-> & <- & Hall). split_and!; try done. by constructor.
Qed.

Lemma keyed_run (l : list Note) c :
  Forall (λ n, is_Some (twid_of (nrow n))) l →
  ∃ keyed, map_m keyed_note l c = Done keyed c.
Proof.
  induction 1 as [|n l [x Hx] _ [keyed IH]]; [by exists []|].
  exists ((x, n) :: keyed). cbn [map_m]. unfold bind at 1, keyed_note at 1.
  rewrite Hx. cbn. unfold bind. by rewrite IH.
Qed.

Lemma load_run c :
  map_m getNote (map_to_list (notes_of_types (name <$> all_note_types) c)).*1 c
  = Done (loaded c) c.
Proof.
  apply getNotes_run. intros k r Hin%elem_of_map_to_list.
  by apply map_lookup_filter_Some in Hin as [? _].
Qed.

(** The run of [sync], cut after the reading of the Anki notes. *)
Lemma sync_inv tw_notes default_deck c s c' :
  sync tw_notes default_deck c = Done s c' →
  ∃ c0 keyed,
    ensure_note_types c = Done tt c0 ∧ verified c0
    ∧ notes c0 = notes c ∧ cards c0 = cards c ∧ decks c0 = decks c
    ∧ keyed.*2 = loaded c0
    ∧ Forall (λ kn, twid_of (nrow kn.2) = Some kn.1) keyed
    ∧ apply_changes tw_notes default_deck keyed c0 = Done s c'.
Proof.
  intros Hrun.
  change (sync tw_notes default_deck) with
    (ensure_note_types ;; verify_note_types ;;
     do found <- find_notes_of_types (name <$> all_note_types);
     do anki_notes <- map_m getNote found;
     do keyed <- map_m keyed_note anki_notes;
     apply_changes tw_notes default_deck keyed) in Hrun.
  apply bind_inv in Hrun as ([] & c0 & Hens & Hrun).
  apply bind_inv in Hrun as ([] & c1 & [-> Hv]%verify_inv & Hrun).
  apply bind_inv in Hrun as (found & c1 & Hfound & Hrun).
  injection Hfound as <- <-.
  rewrite (bind_done _ _ _ _ _ (load_run c0)) in Hrun.
  apply bind_inv in Hrun as (keyed & c1 & (-> & Hk2 & Hk1)%keyed_inv & Hrun).
  destruct (ensure_run c) as (c0' & Hens' & Hn & Hc & Hd & _).
  rewrite Hens in Hens'. injection Hens' as <-.
  by exists c0, keyed.
Qed.

Lemma sync_run tw_notes default_deck c keyed :
  verified c →
  map_m keyed_note (loaded c) c = Done keyed c →
  sync tw_notes default_deck c = apply_changes tw_notes default_deck keyed c.
Proof.
  intros Hv Hk.
  change (sync tw_notes default_deck) with
    (ensure_note_types ;; verify_note_types ;;
     do found <- find_notes_of_types (name <$> all_note_types);
     do anki_notes <- map_m getNote found;
     do keyed <- map_m keyed_note anki_notes;
     apply_changes tw_notes default_deck keyed).
  destruct (ensure_run c) as (c0 & Hens & _ & _ & _ & Hsame).
  rewrite (Hsame Hv) in Hens. rewrite (bind_done _ _ _ _ _ Hens).
  rewrite (bind_done _ _ _ _ _ (verify_run c Hv)).
  unfold bind at 1, find_notes_of_types, get.
  rewrite (bind_done _ _ _ _ _ (load_run c)).
  by rewrite (bind_done _ _ _ _ _ Hk).
Qed.

(** ** The two dictionaries *)

Lemma dict_of_snoc {V} (l : list (string * V)) k v :
  dict_of (l ++ [(k, v)]) = <[k := v]> (dict_of l).
Proof. unfold dict_of. by rewrite foldl_app. Qed.

Lemma dict_of_lookup {V} (l : list (string * V)) x v :
  dict_of l !! x = Some v → (x, v) ∈ l.
Proof.
  induction l as [|[k w] l IH] using rev_ind; [done|].
  rewrite dict_of_snoc, elem_of_app, list_elem_of_singleton.
  destruct (decide (k = x)) as [->|Hne].
  - rewrite lookup_insert_eq. intros [= ->]. by right.
  - rewrite lookup_insert_ne by done. intros ?. left. by apply IH.
Qed.

Lemma dict_of_dom {V} (l : list (string * V)) :
  dom (dict_of l) = list_to_set l.*1.
Proof.
  induction l as [|[k w] l IH] using rev_ind; [done|].
  rewrite dict_of_snoc, dom_insert_L, fmap_app, list_to_set_app_L, IH.
  cbn. set_solver.
Qed.

Lemma emap_lookup (tw_notes : list TwNote) x tw :
  dict_of ((λ n, (id_ n, n)) <$> tw_notes) !! x = Some tw →
  tw ∈ tw_notes ∧ id_ tw = x.
Proof.
  intros Hin%dict_of_lookup. apply list_elem_of_fmap in Hin as (n & [= -> ->] & Hn).
  done.
Qed.

Lemma emap_dom (tw_notes : list TwNote) :
  dom (dict_of ((λ n, (id_ n, n)) <$> tw_notes)) = list_to_set (id_ <$> tw_notes).
Proof. rewrite dict_of_dom. by rewrite <-list_fmap_compose. Qed.

Lemma elem_of_loaded c n :
  n ∈ loaded c
  ↔ notes c !! nid n = Some (nrow n) ∧ mname (nrow n) ∈ recognized_names.
Proof.
  unfold loaded, recognized_names. rewrite list_elem_of_fmap. split.
  - intros ([k r] & -> & Hin%elem_of_map_to_list).
    by apply map_lookup_filter_Some in Hin.
  - intros Hn. exists (nid n, nrow n). split; [by destruct n|].
    by apply elem_of_map_to_list, map_lookup_filter_Some.
Qed.

Lemma elem_of_target_ids c x :
  x ∈ target_ids c
  ↔ ∃ k r, notes c !! k = Some r ∧ mname r ∈ recognized_names
           ∧ twid_of r = Some x.
Proof.
  unfold target_ids. rewrite elem_of_map_img. split.
  - intros (k & Hk). rewrite lookup_omap in Hk.
    destruct (notes_of_types _ c !! k) as [r|] eqn:Hr; [|done].
    apply map_lookup_filter_Some in Hr as [Hr Hm]. by exists k, r.
  - intros (k & r & Hr & Hm & Hx). exists k. rewrite lookup_omap.
    assert (notes_of_types recognized_names c !! k = Some r) as ->; [|done].
    by apply map_lookup_filter_Some.
Qed.

Lemma target_ids_notes c c' : notes c' = notes c → target_ids c' = target_ids c.
Proof.
  intros Hn. apply set_eq. intros x. rewrite !elem_of_target_ids. by rewrite Hn.
Qed.

Section Keyed.
Context (c : Col) (keyed : list (string * Note)).
Hypothesis Hloaded : keyed.*2 = loaded c.
Hypothesis Hkeys : Forall (λ kn, twid_of (nrow kn.2) = Some kn.1) keyed.

Lemma elem_of_keyed x n :
  (x, n) ∈ keyed
  ↔ notes c !! nid n = Some (nrow n) ∧ mname (nrow n) ∈ recognized_names
    ∧ twid_of (nrow n) = Some x.
Proof.
  split.
  - intros Hin. rewrite Forall_forall in Hkeys.
    pose proof (Hkeys _ Hin) as Hx. cbn in Hx.
    assert (n ∈ keyed.*2) as Hn.
    { apply list_elem_of_fmap. by exists (x, n). }
    rewrite Hloaded in Hn. apply elem_of_loaded in Hn as [? ?]. done.
  - intros (Hn & Hm & Hx).
    assert (n ∈ keyed.*2) as Hin.
    { rewrite Hloaded. by apply elem_of_loaded. }
    apply list_elem_of_fmap in Hin as ([x' n'] & -> & Hin).
    rewrite Forall_forall in Hkeys. pose proof (Hkeys _ Hin) as Hx'.
    cbn in *. by simplify_eq.
Qed.

Lemma keyed_ids : list_to_set keyed.*1 = target_ids c.
Proof.
  apply set_eq. intros x.
  rewrite elem_of_list_to_set, list_elem_of_fmap, elem_of_target_ids. split.
  - intros ([x' n] & -> & (? & ? & ?)%elem_of_keyed). by exists (nid n), (nrow n).
  - intros (k & r & Hr & Hm & Hx). exists (x, {| nid := k; nrow := r |}).
    split; [done|]. by apply elem_of_keyed.
Qed.

Lemma amap_lookup x n :
  dict_of keyed !! x = Some n →
  notes c !! nid n = Some (nrow n) ∧ mname (nrow n) ∈ recognized_names
  ∧ twid_of (nrow n) = Some x.
Proof. intros Hin%dict_of_lookup. by apply elem_of_keyed. Qed.

Lemma amap_dom : dom (dict_of keyed) = target_ids c.
Proof. rewrite dict_of_dom. apply keyed_ids. Qed.
End Keyed.

Lemma note_ids_inv (amap : gmap string Note) l c ids c' :
  map_m (note_id_of amap) l c = Done ids c' →
  c' = c ∧ Forall2 (λ x i, ∃ n, amap !! x = Some n ∧ nid n = i) l ids.
Proof.
  revert ids. induction l as [|x l IH]; intros ids; cbn [map_m].
  { intros [= <- <-]. by split. }
  intros Hrun.
  apply bind_inv in Hrun as (i & c1 & Hi & Hrun).
  apply bind_inv in Hrun as (is' & c2 & Hl & Hrun). injection Hrun as <- <-.
  unfold note_id_of in Hi.
  apply bind_inv in Hi as (n & c3 & [Hx ->]%of_option_inv & Hi).
  injection Hi as <- <-.
  apply IH in Hl as (-> & Hall). split; [done|]. constructor; eauto.
Qed.

(** ** The summary *)


(** ** Fields by name *)

Lemma get_item_is_Some k l : is_Some (get_item k l) ↔ k ∈ l.*1.
Proof.
  induction l as [|[k' v] l IH]; cbn.
  - split; [by intros [? ?]|by intros ?%elem_of_nil].
  - destruct (decide (k' = k)) as [->|Hne].
    + split; [intros _; by left|eauto].
    + rewrite IH, elem_of_cons. naive_solver.
Qed.

Lemma set_item_keys k v l : (set_item k v l).*1 = l.*1.
Proof.
  induction l as [|[k' v'] l IH]; [done|]. cbn.
  destruct (decide (k' = k)); cbn; [done|]. by rewrite IH.
Qed.

Lemma get_set_item_eq k v l : k ∈ l.*1 → get_item k (set_item k v l) = Some v.
Proof.
  induction l as [|[k' v'] l IH]; cbn; [by intros ?%elem_of_nil|].
  destruct (decide (k' = k)) as [->|Hne]; cbn.
  - by rewrite decide_True.
  - rewrite decide_False by done. intros [?|?]%elem_of_cons; [congruence|auto].
Qed.

Lemma get_set_item_ne k k' v l : k ≠ k' → get_item k (set_item k' v l) = get_item k l.
Proof.
  intros Hne. induction l as [|[k0 v0] l IH]; [done|]. cbn.
  destruct (decide (k0 = k')) as [->|Hne']; cbn.
  - destruct (decide (k' = k)); [congruence|done].
  - destruct (decide (k0 = k)); [done|apply IH].
Qed.

Lemma set_items_keys (l : list (string * string)) (ws : list (string * string)) :
  (foldl (λ l kv, set_item kv.1 kv.2 l) l ws).*1 = l.*1.
Proof.
  revert l. induction ws as [|[k v] ws IH]; intros l; [done|].
  cbn. by rewrite IH, set_item_keys.
Qed.

Lemma update_row_keys tw_note r : (items (update_row tw_note r)).*1 = (items r).*1.
Proof. apply set_items_keys. Qed.

Lemma update_row_mname tw_note r : mname (update_row tw_note r) = mname r.
Proof. done. Qed.

Lemma twid_of_update_row tw_note r :
  ID_FIELD_NAME ∈ (items r).*1 → twid_of (update_row tw_note r) = Some (id_ tw_note).
Proof.
  intros Hid. unfold twid_of, update_row, wanted_items. cbn [items].
  rewrite foldl_app. cbn. apply get_set_item_eq. by rewrite set_items_keys.
Qed.

Lemma fields_equal_twid tw_note anki_note :
  fields_equal tw_note anki_note = true →
  twid_of (nrow anki_note) = Some (id_ tw_note).
Proof.
  unfold fields_equal, wanted_items. rewrite forallb_app. cbn.
  intros [_ Hid]%andb_prop. rewrite andb_true_r in Hid.
  by apply bool_decide_eq_true in Hid.
Qed.

Lemma imap_keys {A} (g : nat → A) (l : list string) :
  (imap (λ j f, (f, g j)) l).*1 = l.
Proof.
  revert g. induction l as [|f l IH]; intros g; [done|].
  cbn. f_equal. apply (IH (g ∘ S)).
Qed.

Lemma remap_items_keys new_flds fmap old : (remap_items new_flds fmap old).*1 = new_flds.
Proof. unfold remap_items. apply (imap_keys (λ j, _)). Qed.

Lemma new_note_keys nm nt : (items (new_note nm nt)).*1 = flds nt.
Proof. cbn. rewrite <-list_fmap_compose. apply list_fmap_id. Qed.

(** ** Which note holds which id *)

Lemma elem_of_target_ids_holds c x : x ∈ target_ids c ↔ ∃ k, holds c k x.
Proof. rewrite elem_of_target_ids. unfold holds. naive_solver. Qed.

Lemma holds_fun c k x y : holds c k x → holds c k y → x = y.
Proof. intros (r & Hr & _ & Hx) (r' & Hr' & _ & Hy). congruence. Qed.

Lemma holds_same_notes c c' k x : notes c' = notes c → holds c' k x ↔ holds c k x.
Proof. unfold holds. by intros ->. Qed.

(** Replacing the row of a note by one that holds the same id changes
    nothing to who holds what. *)
Lemma holds_replace c c' k r' x :
  notes c' = <[k := r']> (notes c) →
  holds c k x → mname r' ∈ recognized_names → twid_of r' = Some x →
  ∀ j y, holds c' j y ↔ holds c j y.
Proof.
  intros Hn Hk Hm Hx j y. unfold holds. rewrite Hn.
  destruct (decide (k = j)) as [->|Hne].
  - rewrite lookup_insert_eq. split.
    + intros (r & [= <-] & _ & Hy). assert (y = x) as -> by congruence. exact Hk.
    + intros Hj. rewrite (holds_fun _ _ _ _ Hj Hk). by exists r'.
  - by rewrite lookup_insert_ne.
Qed.

(** A new row adds one holder. *)
Lemma holds_insert c c' k r' x :
  notes c' = <[k := r']> (notes c) → notes c !! k = None →
  mname r' ∈ recognized_names → twid_of r' = Some x →
  ∀ j y, holds c' j y ↔ holds c j y ∨ (j = k ∧ y = x).
Proof.
  intros Hn Hk Hm Hx j y. unfold holds. rewrite Hn.
  destruct (decide (k = j)) as [->|Hne].
  - rewrite lookup_insert_eq, Hk. split.
    + intros (r & [= <-] & _ & Hy). right. split; congruence.
    + intros [(r & ? & _)|[_ ->]]; [done|]. by exists r'.
  - rewrite lookup_insert_ne by done. naive_solver.
Qed.

Lemma types_ok_spec m :
  types_ok = true → m ∈ all_note_types → ID_FIELD_NAME ∈ fields m.
Proof.
  unfold types_ok. rewrite forallb_forall. intros Hall Hm.
  apply list_elem_of_In, Hall in Hm. by apply bool_decide_eq_true in Hm.
Qed.

Lemma recognized_model m : m ∈ all_note_types → name m ∈ recognized_names.
Proof. intros Hm. apply list_elem_of_fmap. by exists m. Qed.

Lemma linked_holds c (amap : gmap string Note) x n :
  linked c amap → amap !! x = Some n → holds c (nid n) x.
Proof. intros Hlink Hx. destruct (Hlink x n Hx) as (? & ? & ?). by exists (nrow n). Qed.

Lemma remap_cards_other n cmap (cs : gmap nat Card) j cd :
  c_nid cd ≠ n →
  omap (remap_card n cmap) cs !! j = Some cd ↔ cs !! j = Some cd.
Proof.
  intros Hne. rewrite lookup_omap. unfold remap_card.
  destruct (cs !! j) as [cd0|]; cbn; [|done].
  destruct (decide (c_nid cd0 = n)) as [Heq|Hne0]; [|done].
  split; [|by intros [= ->]].
  destruct (cmap (ord cd0)); cbn; [|done]. intros [= <-]. by destruct Hne.
Qed.

Lemma moved_cards_other n d (cs : gmap nat Card) j cd :
  c_nid cd ≠ n → (moved n d <$> cs) !! j = Some cd ↔ cs !! j = Some cd.
Proof.
  intros Hne. rewrite lookup_fmap. unfold moved.
  destruct (cs !! j) as [cd0|]; cbn; [|done].
  destruct (decide (c_nid cd0 = n)) as [Heq|Hne0]; [|done].
  split; [|by intros [= ->]]. intros [= <-]. by destruct Hne.
Qed.

Lemma moved_cards_own n d (cs : gmap nat Card) j cd :
  (moved n d <$> cs) !! j = Some cd → c_nid cd = n → did cd = d.
Proof.
  rewrite lookup_fmap. unfold moved.
  destruct (cs !! j) as [cd0|]; cbn; [|done].
  destruct (decide (c_nid cd0 = n)); intros [= <-]; [done|]. done.
Qed.

(** What one edit does: the row of the note filed under the id is replaced
    by one of the source note's type that holds the id, its cards end in
    the deck of the source note, and no other note or card changes. *)
Lemma edit_one_shape default_deck (emap : gmap string TwNote) x st c st' c' :
  types_ok = true → verified c → keyed_by_id emap → linked c st.1 →
  edit_one default_deck emap x st c = Done st' c' →
  ∃ an tw r' dk,
    st.1 !! x = Some an ∧ emap !! x = Some tw
    ∧ st'.1 = <[x := {| nid := nid an; nrow := r' |}]> st.1
    ∧ notes c' = <[nid an := r']> (notes c)
    ∧ mname r' = name (model tw) ∧ twid_of r' = Some x
    ∧ (fields_equal tw {| nid := nid an; nrow := r' |} = true
       ∨ ∃ r1, r' = update_row tw r1)
    ∧ ((items r').*1 = (items (nrow an)).*1 ∧ mname (nrow an) = name (model tw)
       ∨ (items r').*1 = fields (model tw))
    ∧ models c' = models c ∧ decks c ⊆ decks c'
    ∧ decks c' !! or_ (target_deck tw) default_deck = Some dk
    ∧ (∀ j cd, cards c' !! j = Some cd → c_nid cd = nid an → did cd = dk)
    ∧ (∀ j cd, c_nid cd ≠ nid an →
         cards c' !! j = Some cd ↔ cards c !! j = Some cd).
Proof.
  intros Hty Hv Hemap Hlink
    (an & tw & an1 & c1 & checked & c2 & Hx & Htw & Htc & Hfc & Hud & ->)%edit_one_inv.
  destruct (Hlink x an Hx) as (Hrow & Hrecog & Hmx).
  destruct (Hemap x tw Htw) as [Hmodel Hid].
  pose proof (types_ok_spec _ Hty Hmodel) as Hidf.
  assert (H1 : nid an1 = nid an ∧ mname (nrow an1) = name (model tw)
    ∧ ID_FIELD_NAME ∈ (items (nrow an1)).*1 ∧ models c1 = models c
    ∧ decks c1 = decks c
    ∧ notes c1 = <[nid an := nrow an1]> (notes c)
    ∧ ((items (nrow an1)).*1 = (items (nrow an)).*1
         ∧ mname (nrow an) = name (model tw)
       ∨ (items (nrow an1)).*1 = fields (model tw))
    ∧ (∀ j cd, c_nid cd ≠ nid an →
         cards c1 !! j = Some cd ↔ cards c !! j = Some cd)).
  { apply type_check_inv in Htc
      as [(Heq & -> & ->)|(_ & old & nt & r & _ & Hnt & Hr & -> & ->)].
    - unfold model_equal in Heq. apply bool_decide_eq_true in Heq.
      split_and!; try done.
      + apply get_item_is_Some. unfold twid_of in Hmx. by rewrite Hmx.
      + by rewrite insert_id.
      + by left.
    - rewrite (Hv _ Hmodel) in Hnt. injection Hnt as <-.
      assert ((items (migrated tw old
          {| flds := fields (model tw); tmpls := templates (model tw) |} r)).*1
        = fields (model tw)) as Hkeys.
      { unfold migrated. cbn [items]. by rewrite remap_items_keys. }
      split_and!; try done.
      + cbn [nrow]. by rewrite Hkeys.
      + by right.
      + intros j cd Hne. cbn [cards log set_cards set_notes].
        by apply remap_cards_other. }
  destruct H1 as (Hnid1 & Hmn1 & Hid1 & Hmod1 & Hdk1 & Hnotes1 & Hconf1 & Hcards1).
  assert (H2 : ∃ r', checked.1 = {| nid := nid an; nrow := r' |}
    ∧ notes c2 = <[nid an := r']> (notes c)
    ∧ mname r' = name (model tw) ∧ twid_of r' = Some x
    ∧ (fields_equal tw {| nid := nid an; nrow := r' |} = true
       ∨ ∃ r1, r' = update_row tw r1)
    ∧ (items r').*1 = (items (nrow an1)).*1
    ∧ models c2 = models c ∧ decks c2 = decks c ∧ cards c2 = cards c1).
  { apply field_check_inv in Hfc as [(Heq & -> & ->)|(_ & -> & ->)]; cbn [fst snd].
    - exists (nrow an1). pose proof (fields_equal_twid _ _ Heq) as Htwid.
      rewrite Hid in Htwid. destruct an1 as [k1 r1]. cbn in *. subst k1.
      split_and!; try done. by left.
    - exists (update_row tw (nrow an1)). cbn [update_fields nid nrow].
      rewrite Hnid1. split_and!; try done.
      + unfold update_fields. by rewrite Hnid1.
      + cbn. by rewrite Hnotes1, insert_insert_eq.
      + rewrite twid_of_update_row by done. by rewrite Hid.
      + right. by exists (nrow an1).
      + apply update_row_keys. }
  destruct H2 as (r' & Hchk & Hnotes2 & Hmn2 & Htw2 & Hfe2 & Hkeys2 & Hmod2 & Hdk2
                  & Hcards2).
  rewrite <-Hkeys2 in Hconf1.
  destruct (update_deck_run tw checked.1 default_deck c2)
    as (dk & c3 & c4 & Hrun3 & Hrun4 & Hc4 & Hn4 & Hd4 & Hm4 & _).
  rewrite Hud in Hrun4. injection Hrun4 as <-.
  destruct (decks_id_run (or_ (target_deck tw) default_deck) c2)
    as (dk' & c3' & Hrun3' & Hdk3 & Hsub3 & _).
  rewrite Hrun3 in Hrun3'. injection Hrun3' as <- <-.
  rewrite Hchk in Hc4. cbn [nid] in Hc4.
  exists an, tw, r', dk. cbn [fst]. rewrite Hchk.
  split_and!; try done; try congruence.
  - rewrite Hd4. by rewrite <-Hdk2.
  - intros j cd. rewrite Hc4. apply moved_cards_own.
  - intros j cd Hne. rewrite Hc4, moved_cards_other by done.
    rewrite Hcards2. by apply Hcards1.
Qed.

(** One edit leaves every id with its holder. *)
Lemma edit_one_holds default_deck (emap : gmap string TwNote) x st c st' c' :
  types_ok = true → verified c → keyed_by_id emap → linked c st.1 →
  edit_one default_deck emap x st c = Done st' c' →
  (∀ j y, holds c' j y ↔ holds c j y) ∧ models c' = models c ∧ linked c' st'.1.
Proof.
  intros Hty Hv Hemap Hlink Hrun.
  destruct (edit_one_shape _ _ _ _ _ _ _ Hty Hv Hemap Hlink Hrun)
    as (an & tw & r' & dk & Hx & Htw & Hst & Hn & Hmn & Htwid & _ & _ & Hm & _).
  destruct (Hemap x tw Htw) as [Hmodel Hid].
  pose proof (recognized_model _ Hmodel) as Hrec.
  pose proof (linked_holds _ _ _ _ Hlink Hx) as Hhold.
  split_and!; [|done|].
  - apply (holds_replace c c' (nid an) r' x); try done. by rewrite Hmn.
  - rewrite Hst. intros y n. destruct (decide (x = y)) as [->|Hne].
    + rewrite lookup_insert_eq. intros [= <-]. cbn.
      rewrite Hn, lookup_insert_eq. split_and!; try done. by rewrite Hmn.
    + rewrite lookup_insert_ne by done. intros Hy.
      destruct (Hlink y n Hy) as (Hrow & ? & ?). split_and!; try done.
      rewrite Hn, lookup_insert_ne; [done|]. intros Heq.
      pose proof (linked_holds _ _ _ _ Hlink Hy) as Hhy. rewrite <-Heq in Hhy.
      by destruct Hne; eapply holds_fun.
Qed.

(** What one add does: a note that was not there, of the source note's
    type and with its fields, its cards in the deck of the source note;
    nothing that was there changes. *)
Lemma add_one_shape default_deck (emap : gmap string TwNote) x c c' :
  types_ok = true → verified c → keyed_by_id emap →
  add_one default_deck emap x c = Done tt c' →
  ∃ tw k dk,
    emap !! x = Some tw ∧ notes c !! k = None
    ∧ (∀ j cd, cards c !! j = Some cd → c_nid cd ≠ k)
    ∧ notes c' = <[k := update_row tw
                     (new_note (name (model tw))
                        {| flds := fields (model tw);
                           tmpls := templates (model tw) |})]> (notes c)
    ∧ twid_of (update_row tw
                 (new_note (name (model tw))
                    {| flds := fields (model tw);
                       tmpls := templates (model tw) |})) = Some x
    ∧ models c' = models c ∧ decks c ⊆ decks c'
    ∧ decks c' !! or_ (target_deck tw) default_deck = Some dk
    ∧ (∀ j cd, cards c !! j = Some cd → cards c' !! j = Some cd)
    ∧ (∀ j cd, cards c' !! j = Some cd →
         cards c !! j = Some cd ∨ (c_nid cd = k ∧ did cd = dk)).
Proof.
  intros Hty Hv Hemap Hrun.
  destruct (emap !! x) as [tw|] eqn:Hx.
  2:{ unfold add_one in Hrun. by rewrite Hx in Hrun. }
  destruct (Hemap x tw Hx) as [Hmodel Hid].
  destruct (add_one_run default_deck emap x tw _ c Hx (Hv _ Hmodel))
    as (d & c1 & k & c'' & Hrun1 & Hrun' & Hfresh & Hfresh' & Hn & Hd & Hm
        & Hold & Hnew & _).
  rewrite Hrun in Hrun'. injection Hrun' as <-.
  destruct (decks_id_run (or_ (target_deck tw) default_deck) c)
    as (d' & c1' & Hrun1' & Hdk & Hsub & _).
  rewrite Hrun1 in Hrun1'. injection Hrun1' as <- <-.
  exists tw, k, d. split_and!.
  - done.
  - done.
  - done.
  - done.
  - rewrite twid_of_update_row; [by rewrite Hid|].
    rewrite new_note_keys. cbn. by apply types_ok_spec.
  - done.
  - by rewrite Hd.
  - by rewrite Hd.
  - done.
  - intros j cd Hj. apply Hnew in Hj as [?|(_ & ? & ?)]; eauto.
Qed.

(** One add gives the id a holder, a note that was not there. *)
Lemma add_one_holds default_deck (emap : gmap string TwNote) x c c' :
  types_ok = true → verified c → keyed_by_id emap →
  add_one default_deck emap x c = Done tt c' →
  ∃ k, notes c !! k = None
    ∧ (∀ j y, holds c' j y ↔ holds c j y ∨ (j = k ∧ y = x))
    ∧ models c' = models c.
Proof.
  intros Hty Hv Hemap Hrun.
  destruct (add_one_shape _ _ _ _ _ Hty Hv Hemap Hrun)
    as (tw & k & dk & Hx & Hfresh & _ & Hn & Htwid & Hm & _).
  destruct (Hemap x tw Hx) as [Hmodel Hid].
  exists k. split_and!; [done| |done].
  apply (holds_insert c c' k _ x Hn Hfresh); [|done].
  by apply recognized_model.
Qed.

Lemma target_ids_equiv c c' :
  (∀ j y, holds c' j y ↔ holds c j y) → target_ids c' = target_ids c.
Proof.
  intros Heq. apply set_eq. intros x. rewrite !elem_of_target_ids_holds.
  by setoid_rewrite Heq.
Qed.

Lemma unique_equiv c c' :
  (∀ j y, holds c' j y ↔ holds c j y) → unique c → unique c'.
Proof. intros Heq Hu k1 k2 x H1%Heq H2%Heq. by eapply Hu. Qed.

Lemma verified_models c c' : models c' = models c → verified c → verified c'.
Proof. intros Hm Hv m Hin. rewrite Hm. by apply Hv. Qed.

Lemma add_loop_holds default_deck (emap : gmap string TwNote)
    (amap : gmap string Note) l : ∀ c c',
  types_ok = true → keyed_by_id emap →
  verified c → unique c → linked c amap →
  NoDup l → (∀ x, x ∈ l → x ∉ target_ids c) →
  for_each l (add_one default_deck emap) c = Done tt c' →
  verified c' ∧ unique c' ∧ linked c' amap
  ∧ target_ids c' = target_ids c ∪ list_to_set l.
Proof.
  induction l as [|x l IH]; intros c c' Hty Hemap Hv Hu Hlink Hnd Hnew Hrun.
  { injection Hrun as <-. split_and!; try done. set_solver. }
  cbn [for_each] in Hrun. apply bind_inv in Hrun as ([] & c1 & Hx & Hrun).
  apply NoDup_cons in Hnd as [Hxl Hnd].
  destruct (add_one_holds _ _ _ _ _ Hty Hv Hemap Hx) as (k & Hk & Heq & Hm).
  assert (Hxc : ¬ ∃ j, holds c j x).
  { rewrite <-elem_of_target_ids_holds. apply Hnew. by left. }
  assert (Hids : target_ids c1 = target_ids c ∪ {[x]}).
  { apply set_eq. intros y.
    rewrite elem_of_union, elem_of_singleton, !elem_of_target_ids_holds.
    setoid_rewrite Heq. naive_solver. }
  destruct (IH c1 c') as (Hv' & Hu' & Hlink' & Hids'); try done.
  - by eapply verified_models.
  - intros k1 k2 y [H1|[Hk1 Hy1]]%Heq [H2|[Hk2 Hy2]]%Heq; subst.
    + by eapply Hu.
    + destruct Hxc. eauto.
    + destruct Hxc. eauto.
    + done.
  - intros y n Hy. destruct (Hlink y n Hy) as (Hrow & ? & ?).
    split_and!; try done.
    destruct (add_one_shape _ _ _ _ _ Hty Hv Hemap Hx)
      as (tw & k' & dk & _ & Hfresh & _ & Hn & _).
    rewrite Hn, lookup_insert_ne; [done|]. intros Heq'.
    rewrite Heq' in Hfresh. congruence.
  - intros y Hy. rewrite Hids. apply not_elem_of_union. split.
    + apply Hnew. by right.
    + apply not_elem_of_singleton. by intros ->.
  - split_and!; try done. rewrite Hids', Hids. set_solver.
Qed.

Lemma edit_loop_holds default_deck (emap : gmap string TwNote) l : ∀ st c st' c',
  types_ok = true → keyed_by_id emap →
  verified c → unique c → linked c st.1 →
  for_fold l (edit_one default_deck emap) st c = Done st' c' →
  verified c' ∧ unique c' ∧ linked c' st'.1 ∧ target_ids c' = target_ids c.
Proof.
  induction l as [|x l IH]; intros st c st' c' Hty Hemap Hv Hu Hlink Hrun.
  { by injection Hrun as <- <-. }
  cbn [for_fold] in Hrun. apply bind_inv in Hrun as (st1 & c1 & Hx & Hrun).
  destruct (edit_one_holds _ _ _ _ _ _ _ Hty Hv Hemap Hlink Hx) as (Heq & Hm & Hlink1).
  destruct (IH st1 c1 st' c') as (Hv' & Hu' & Hlink' & Hids'); try done.
  - by eapply verified_models.
  - by eapply unique_equiv.
  - split_and!; try done. rewrite Hids'. by apply target_ids_equiv.
Qed.

(** Removing the notes filed under some ids leaves the other ids. *)
Lemma remove_holds (amap : gmap string Note) (l : list string) ids c :
  unique c → linked c amap →
  Forall2 (λ x i, ∃ n, amap !! x = Some n ∧ nid n = i) l ids →
  target_ids (log (OpRemoveNotes ids)
                (set_cards (filter (λ kv, c_nid kv.2 ∉ ids))
                   (set_notes (filter (λ kv, kv.1 ∉ ids)) c)))
  = target_ids c ∖ list_to_set l.
Proof.
  intros Hu Hlink Hids.
  assert (Hin : ∀ i, i ∈ ids ↔ ∃ x, x ∈ l ∧ holds c i x).
  { intros i. split.
    - intros Hi. apply list_elem_of_lookup in Hi as [p Hp].
      destruct (Forall2_lookup_r _ _ _ _ _ Hids Hp) as (x & Hx & n & Hn & <-).
      exists x. split; [by eapply list_elem_of_lookup_2|]. by eapply linked_holds.
    - intros (x & Hx & Hhold). apply list_elem_of_lookup in Hx as [p Hp].
      destruct (Forall2_lookup_l _ _ _ _ _ Hids Hp) as (i' & Hi' & n & Hn & <-).
      pose proof (linked_holds _ _ _ _ Hlink Hn) as Hh. rewrite (Hu _ _ _ Hhold Hh).
      by eapply list_elem_of_lookup_2. }
  apply set_eq. intros x.
  rewrite elem_of_difference, elem_of_list_to_set, !elem_of_target_ids_holds.
  unfold holds at 1. cbn [notes log set_cards set_notes]. split.
  - intros (k & r & Hr & Hm & Hx). apply map_lookup_filter_Some in Hr as [Hr Hk].
    cbn in Hk. assert (holds c k x) as Hh by by exists r. split; [eauto|].
    intros Hxl. apply Hk, Hin. eauto.
  - intros [(k & Hh) Hxl]. exists k. destruct Hh as (r & Hr & Hm & Hx).
    exists r. split_and!; try done. apply map_lookup_filter_Some. split; [done|].
    cbn. intros (y & Hy & Hhy)%Hin.
    assert (holds c k x) as Hh by by exists r.
    by rewrite (holds_fun _ _ _ _ Hh Hhy) in Hxl.
Qed.

Lemma NoDup_omap_inj {A B} (f : A → option B) (l : list A) a b x :
  NoDup (omap f l) → a ∈ l → b ∈ l → f a = Some x → f b = Some x → a = b.
Proof.
  induction l as [|a0 l IH]; [by intros _ ?%elem_of_nil|].
  cbn. intros Hnd Ha Hb Hfa Hfb.
  destruct (f a0) as [y|] eqn:Hy.
  - apply NoDup_cons in Hnd as [Hy' Hnd].
    apply elem_of_cons in Ha as [->|Ha]; apply elem_of_cons in Hb as [->|Hb].
    + done.
    + destruct Hy'. apply list_elem_of_omap. exists b. split; [done|congruence].
    + destruct Hy'. apply list_elem_of_omap. exists a. split; [done|congruence].
    + by apply IH.
  - apply elem_of_cons in Ha as [->|Ha]; [congruence|].
    apply elem_of_cons in Hb as [->|Hb]; [congruence|]. by apply IH.
Qed.

Lemma unique_ids_spec c : unique_ids c = true → unique c.
Proof.
  unfold unique_ids. intros Hnd%bool_decide_eq_true k1 k2 x
    (r1 & Hr1 & Hm1 & Hx1) (r2 & Hr2 & Hm2 & Hx2).
  assert ({| nid := k1; nrow := r1 |} = {| nid := k2; nrow := r2 |}) as Heq.
  { eapply (NoDup_omap_inj _ _ _ _ x Hnd); try done; by apply elem_of_loaded. }
  by injection Heq.
Qed.

Lemma unique_ids_notes c c' : notes c' = notes c → unique c → unique c'.
Proof. intros Hn. apply unique_equiv. intros j y. by apply holds_same_notes. Qed.

Section Order.
Hypothesis order_perm : ∀ X, order X ≡ₚ elements X.

Lemma order_NoDup X : NoDup (order X).
Proof using order_perm. rewrite order_perm. apply NoDup_elements. Qed.

Lemma elem_of_order X x : x ∈ order X ↔ x ∈ X.
Proof using order_perm. rewrite order_perm. apply elem_of_elements. Qed.

Lemma list_to_set_order X : list_to_set (order X) =@{gset string} X.
Proof using order_perm.
  apply set_eq. intros x. by rewrite elem_of_list_to_set, elem_of_order.
Qed.
End Order.

Lemma source_ok_keyed_by_id tw_notes :
  source_ok tw_notes = true →
  keyed_by_id (dict_of ((λ n, (id_ n, n)) <$> tw_notes)).
Proof.
  unfold source_ok. rewrite forallb_forall.
  intros Hall x tw [Hin Hid]%emap_lookup. split; [|done].
  apply list_elem_of_In, Hall in Hin. by apply bool_decide_eq_true in Hin.
Qed.

(** ** Coverage *)

(** What a run that ends normally leaves, as far as ids go. *)
Lemma sync_holds tw_notes default_deck c s c' :
  (∀ X, order X ≡ₚ elements X) →
  types_ok = true → source_ok tw_notes = true → unique_ids c = true →
  sync tw_notes default_deck c = Done s c' →
  verified c' ∧ unique c' ∧ target_ids c' = source_ids tw_notes.
Proof.
  intros Hord Hty Hsrc Huniq
    (c0 & keyed & Hens & Hv & Hn0 & _ & _ & Hk2 & Hk1 & Hrun)%sync_inv.
  pose proof (source_ok_keyed_by_id _ Hsrc) as Hemap.
  assert (Hu0 : unique c0).
  { apply (unique_ids_notes c); [done|by apply unique_ids_spec]. }
  assert (Hlink0 : linked c0 (dict_of keyed)).
  { intros x n Hx. by apply (amap_lookup c0 keyed Hk2 Hk1). }
  unfold apply_changes in Hrun. rewrite (keyed_ids c0 keyed Hk2 Hk1) in Hrun.
  set (src := list_to_set (id_ <$> tw_notes) : gset string) in *.
  set (tgt := target_ids c0) in *.
  apply bind_inv in Hrun as ([] & ca & Hadd & Hrun).
  apply bind_inv in Hrun as (st & cb & Hedit & Hrun).
  apply bind_inv in Hrun as (ids & cc & [-> Hids]%note_ids_inv & Hrun).
  apply bind_inv in Hrun as ([] & cd & Hrm & Hrun).
  injection Hrun as <- <-. injection Hrm as <-.
  assert (Hnotin : ∀ x, x ∈ order (adds src tgt) → x ∉ target_ids c0).
  { intros x Hx%(elem_of_order Hord). unfold adds in Hx.
    by apply elem_of_difference in Hx as [_ ?]. }
  destruct (add_loop_holds _ _ (dict_of keyed) _ _ _ Hty Hemap Hv Hu0 Hlink0
              (order_NoDup Hord _) Hnotin Hadd) as (Hva & Hua & Hlinka & Hidsa).
  destruct (edit_loop_holds _ _ _ (dict_of keyed, 0) _ _ _ Hty Hemap Hva Hua
              Hlinka Hedit) as (Hvb & Hub & Hlinkb & Hidsb).
  split_and!.
  - done.
  - intros k1 k2 x (r1 & Hr1 & Hm1 & Hx1) (r2 & Hr2 & Hm2 & Hx2).
    cbn in Hr1, Hr2.
    apply map_lookup_filter_Some in Hr1 as [Hr1 _].
    apply map_lookup_filter_Some in Hr2 as [Hr2 _].
    apply (Hub k1 k2 x); [by exists r1 | by exists r2].
  - rewrite (remove_holds st.1 _ ids cb Hub Hlinkb Hids).
    rewrite Hidsb, Hidsa, !(list_to_set_order Hord).
    unfold adds, removes, source_ids. fold src tgt. apply set_eq. intros x.
    rewrite elem_of_difference, elem_of_union, !elem_of_difference.
    destruct (decide (x ∈ src)), (decide (x ∈ tgt)); naive_solver.
Qed.


(** ** A note in sync with its source note *)

Lemma set_items_other k (ws : list (string * string)) : ∀ l,
  k ∉ ws.*1 →
  get_item k (foldl (λ l kv, set_item kv.1 kv.2 l) l ws) = get_item k l.
Proof.
  induction ws as [|[k0 v0] ws IH]; intros l Hk; [done|].
  cbn in *. apply not_elem_of_cons in Hk as [Hne Hk].
  by rewrite IH, get_set_item_ne.
Qed.

Lemma set_items_get (ws : list (string * string)) : ∀ l k v,
  NoDup ws.*1 → (∀ k, k ∈ ws.*1 → k ∈ l.*1) → (k, v) ∈ ws →
  get_item k (foldl (λ l kv, set_item kv.1 kv.2 l) l ws) = Some v.
Proof.
  induction ws as [|[k0 v0] ws IH]; intros l k v Hnd Hkeys Hin.
  { by apply elem_of_nil in Hin. }
  cbn in *. apply NoDup_cons in Hnd as [Hk0 Hnd].
  apply elem_of_cons in Hin as [[= -> ->]|Hin].
  - rewrite set_items_other by done. apply get_set_item_eq, Hkeys. by left.
  - apply IH; [done| |done]. intros k' Hk'. rewrite set_item_keys.
    apply Hkeys. by right.
Qed.

Lemma fields_equal_update tw r k0 :
  (∀ k v, tw_fields tw !! k = Some v → k ∈ (items r).*1 ∧ k ≠ ID_FIELD_NAME) →
  ID_FIELD_NAME ∈ (items r).*1 →
  fields_equal tw {| nid := k0; nrow := update_row tw r |} = true.
Proof.
  intros Hfields Hid. unfold fields_equal. apply forallb_forall.
  intros [k v] Hin%list_elem_of_In. apply bool_decide_eq_true. cbn.
  apply set_items_get; [| |done].
  - unfold wanted_items. rewrite fmap_app. apply NoDup_app. split_and!.
    + apply NoDup_fst_map_to_list.
    + intros k' Hk' Hid'. cbn in Hid'. apply list_elem_of_singleton in Hid'.
      apply list_elem_of_fmap in Hk' as ([k1 v1] & Hk' & Hk1%elem_of_map_to_list).
      cbn in Hk'. subst. by destruct (Hfields _ _ Hk1).
    + apply NoDup_singleton.
  - intros k' Hk'. unfold wanted_items in Hk'. rewrite fmap_app in Hk'.
    apply elem_of_app in Hk' as [Hk'|Hk'];
      [|cbn in Hk'; by apply list_elem_of_singleton in Hk' as ->].
    apply list_elem_of_fmap in Hk' as ([k1 v1] & -> & Hk1%elem_of_map_to_list).
    by destruct (Hfields _ _ Hk1).
Qed.

Lemma frame_for_refl k c : frame_for k c c.
Proof. by split_and!. Qed.

Lemma in_sync_frame default_deck c c' tw k :
  frame_for k c c' → in_sync default_deck c tw k → in_sync default_deck c' tw k.
Proof.
  intros (Hn & Hc & Hd) (r & d & Hr & Hm & Hf & Hdk & Hcards).
  exists r, d. split_and!; try done.
  - by rewrite Hn.
  - by eapply lookup_weaken.
  - intros j cd Hj Hk. apply (Hcards j); [|done]. by apply Hc.
Qed.

Lemma in_sync_holds default_deck (emap : gmap string TwNote) c x tw k :
  keyed_by_id emap → emap !! x = Some tw →
  in_sync default_deck c tw k → holds c k x.
Proof.
  intros Hemap Hx (r & d & Hr & Hm & Hf & _).
  destruct (Hemap x tw Hx) as [Hmodel Hid].
  exists r. split_and!; [done| |].
  - rewrite Hm. by apply recognized_model.
  - apply fields_equal_twid in Hf. by rewrite <-Hid.
Qed.

Lemma verified_same_fields c m1 m2 :
  verified c → m1 ∈ all_note_types → m2 ∈ all_note_types → name m1 = name m2 →
  fields m1 = fields m2.
Proof.
  intros Hv H1 H2 Hn. pose proof (Hv _ H1) as E1. pose proof (Hv _ H2) as E2.
  rewrite Hn in E1. congruence.
Qed.

(** The add handling of an id leaves its new note in sync, and every note
    that was there as it was. *)
Lemma add_one_sync default_deck (emap : gmap string TwNote) x c c' :
  types_ok = true → verified c → keyed_by_id emap → fitting emap →
  add_one default_deck emap x c = Done tt c' →
  (∃ tw k, emap !! x = Some tw ∧ in_sync default_deck c' tw k)
  ∧ (∀ k, is_Some (notes c !! k) → frame_for k c c')
  ∧ (all_keyed c → all_keyed c') ∧ models c' = models c.
Proof.
  intros Hty Hv Hemap Hfit Hrun.
  destruct (add_one_shape _ _ _ _ _ Hty Hv Hemap Hrun)
    as (tw & k & dk & Hx & Hfresh & Hfresh' & Hn & Htwid & Hm & Hsub & Hdk
        & Hold & Hnew).
  destruct (Hemap x tw Hx) as [Hmodel Hid].
  set (r := update_row tw _) in *.
  split_and!; [| | |done].
  - exists tw, k. split; [done|]. exists r, dk. split_and!; try done.
    + by rewrite Hn, lookup_insert_eq.
    + apply fields_equal_update.
      * intros f v Hf. rewrite new_note_keys. cbn. by eapply Hfit.
      * rewrite new_note_keys. cbn. by apply types_ok_spec.
    + intros j cd Hj Hk. apply Hnew in Hj as [Hj|[_ ?]]; [|done].
      by destruct (Hfresh' j cd Hj).
  - intros k' [r' Hk']. split_and!; [|intros j cd Hcd; split|done].
    + rewrite Hn, lookup_insert_ne; [done|]. intros ->. congruence.
    + intros Hj. apply Hnew in Hj as [Hj|[Hk _]]; [done|].
      rewrite Hcd in Hk. subst k'. congruence.
    + apply Hold.
  - intros Hall k' r' Hk' Hrec. rewrite Hn in Hk'.
    destruct (decide (k = k')) as [->|Hne].
    + rewrite lookup_insert_eq in Hk'. injection Hk' as <-. by rewrite Htwid.
    + rewrite lookup_insert_ne in Hk' by done. by eapply Hall.
Qed.

(** The edit handling of an id leaves its note in sync, and every other
    note as it was. *)
Lemma edit_one_sync default_deck (emap : gmap string TwNote) x st c st' c' :
  types_ok = true → verified c → keyed_by_id emap → fitting emap →
  linked c st.1 → conforming st.1 →
  edit_one default_deck emap x st c = Done st' c' →
  (∃ an tw, st.1 !! x = Some an ∧ emap !! x = Some tw
     ∧ in_sync default_deck c' tw (nid an)
     ∧ ∀ k, k ≠ nid an → frame_for k c c')
  ∧ conforming st'.1 ∧ (all_keyed c → all_keyed c').
Proof.
  intros Hty Hv Hemap Hfit Hlink Hconf Hrun.
  destruct (edit_one_shape _ _ _ _ _ _ _ Hty Hv Hemap Hlink Hrun)
    as (an & tw & r' & dk & Hx & Htw & Hst & Hn & Hmn & Htwid & Hfe & Hkeys & Hm
        & Hsub & Hdk & Hown & Hother).
  destruct (Hemap x tw Htw) as [Hmodel Hid].
  destruct (Hlink x an Hx) as (Hrow & Hrecog & Hmx).
  assert (Hkeys' : (items r').*1 = fields (model tw)).
  { destruct Hkeys as [[Hk Hmn']|Hk]; [|done]. rewrite Hk.
    by apply (Hconf x an (model tw)). }
  split_and!.
  - exists an, tw. split_and!; try done.
    + exists r', dk. split_and!; try done.
      * by rewrite Hn, lookup_insert_eq.
      * destruct Hfe as [?|[r1 ->]]; [done|]. rewrite update_row_keys in Hkeys'.
        apply fields_equal_update.
        -- intros f v Hf. rewrite Hkeys'. by eapply Hfit.
        -- rewrite Hkeys'. by apply types_ok_spec.
    + intros k Hne. split_and!; [|intros j cd Hcd|done].
      * by rewrite Hn, lookup_insert_ne.
      * apply Hother. by rewrite Hcd.
  - rewrite Hst. intros y n m. destruct (decide (x = y)) as [->|Hne].
    + rewrite lookup_insert_eq. intros [= <-] Hmin Hname. cbn in *.
      rewrite Hkeys'. apply (verified_same_fields c); try done. congruence.
    + rewrite lookup_insert_ne by done. apply Hconf.
  - intros Hall k r Hk Hrec. rewrite Hn in Hk.
    destruct (decide (nid an = k)) as [<-|Hne].
    + rewrite lookup_insert_eq in Hk. injection Hk as <-. by rewrite Htwid.
    + rewrite lookup_insert_ne in Hk by done. by eapply Hall.
Qed.

Lemma add_loop_sync default_deck (emap : gmap string TwNote) l :
  ∀ (D : gset string) c c',
  types_ok = true → keyed_by_id emap → fitting emap →
  verified c → all_keyed c → synced_on default_deck emap D c →
  for_each l (add_one default_deck emap) c = Done tt c' →
  all_keyed c' ∧ synced_on default_deck emap (D ∪ list_to_set l) c'.
Proof.
  induction l as [|x l IH]; intros D c c' Hty Hemap Hfit Hv Hall Hsync Hrun.
  { injection Hrun as <-. split; [done|]. intros y tw Hy. apply Hsync. set_solver. }
  cbn [for_each] in Hrun. apply bind_inv in Hrun as ([] & c1 & Hx & Hrun).
  destruct (add_one_sync _ _ _ _ _ Hty Hv Hemap Hfit Hx)
    as ((tw & k & Htw & Hin) & Hframe & Hall1 & Hm).
  destruct (IH (D ∪ {[x]}) c1 c') as [Hall' Hsync']; try done.
  - by eapply verified_models.
  - by apply Hall1.
  - intros y tw' [Hy| ->%elem_of_singleton]%elem_of_union Htw'.
    + destruct (Hsync y tw' Hy Htw') as (k' & Hk'). exists k'.
      eapply in_sync_frame; [|done]. apply Hframe.
      destruct Hk' as (r & ? & Hr & _). eauto.
    + exists k. congruence.
  - split; [done|]. intros y tw' Hy. apply Hsync'.
    cbn [list_to_set foldr] in Hy. set_solver.
Qed.

Lemma edit_loop_sync default_deck (emap : gmap string TwNote) l :
  ∀ (D : gset string) st c st' c',
  types_ok = true → keyed_by_id emap → fitting emap →
  verified c → linked c st.1 → conforming st.1 → all_keyed c →
  NoDup l → (∀ x, x ∈ l → x ∉ D) → synced_on default_deck emap D c →
  for_fold l (edit_one default_deck emap) st c = Done st' c' →
  all_keyed c' ∧ synced_on default_deck emap (D ∪ list_to_set l) c'.
Proof.
  induction l as [|x l IH];
    intros D st c st' c' Hty Hemap Hfit Hv Hlink Hconf Hall Hnd HD Hsync Hrun.
  { injection Hrun as <- <-. split; [done|]. intros y tw Hy. apply Hsync. set_solver. }
  cbn [for_fold] in Hrun. apply bind_inv in Hrun as (st1 & c1 & Hx & Hrun).
  apply NoDup_cons in Hnd as [Hxl Hnd].
  destruct (edit_one_holds _ _ _ _ _ _ _ Hty Hv Hemap Hlink Hx) as (_ & Hm & Hlink1).
  destruct (edit_one_sync _ _ _ _ _ _ _ Hty Hv Hemap Hfit Hlink Hconf Hx)
    as ((an & tw & Han & Htw & Hin & Hframe) & Hconf1 & Hall1).
  destruct (IH (D ∪ {[x]}) st1 c1 st' c') as [Hall' Hsync']; try done.
  - by eapply verified_models.
  - by apply Hall1.
  - intros y Hy [HyD| ->%elem_of_singleton]%elem_of_union; [|done].
    apply (HD y); [by right|done].
  - intros y tw' [Hy| ->%elem_of_singleton]%elem_of_union Htw'.
    + destruct (Hsync y tw' Hy Htw') as (k' & Hk'). exists k'.
      eapply in_sync_frame; [|done]. apply Hframe. intros ->.
      pose proof (in_sync_holds _ _ _ _ _ _ Hemap Htw' Hk') as H1.
      pose proof (linked_holds _ _ _ _ Hlink Han) as H2.
      rewrite (holds_fun _ _ _ _ H1 H2) in Hy. apply (HD x); [by left|done].
    + exists (nid an). congruence.
  - split; [done|]. intros y tw' Hy. apply Hsync'.
    cbn [list_to_set foldr] in Hy. set_solver.
Qed.

Lemma remove_sync default_deck (emap : gmap string TwNote)
    (amap : gmap string Note) (l : list string) ids (D : gset string) c :
  keyed_by_id emap → linked c amap →
  Forall2 (λ x i, ∃ n, amap !! x = Some n ∧ nid n = i) l ids →
  (∀ x, x ∈ l → x ∉ D) →
  all_keyed c → synced_on default_deck emap D c →
  all_keyed (log (OpRemoveNotes ids)
               (set_cards (filter (λ kv, c_nid kv.2 ∉ ids))
                  (set_notes (filter (λ kv, kv.1 ∉ ids)) c)))
  ∧ synced_on default_deck emap D
      (log (OpRemoveNotes ids)
         (set_cards (filter (λ kv, c_nid kv.2 ∉ ids))
            (set_notes (filter (λ kv, kv.1 ∉ ids)) c))).
Proof.
  intros Hemap Hlink Hids HD Hall Hsync. split.
  - intros k r Hk Hrec. cbn in Hk. apply map_lookup_filter_Some in Hk as [Hk _].
    by eapply Hall.
  - intros y tw Hy Htw. destruct (Hsync y tw Hy Htw) as (k & Hk). exists k.
    eapply in_sync_frame; [|done].
    assert (Hk' : k ∉ ids).
    { intros Hi. apply list_elem_of_lookup in Hi as [p Hp].
      destruct (Forall2_lookup_r _ _ _ _ _ Hids Hp) as (x & Hx & n & Hn & <-).
      pose proof (linked_holds _ _ _ _ Hlink Hn) as H1.
      pose proof (in_sync_holds _ _ _ _ _ _ Hemap Htw Hk) as H2.
      rewrite (holds_fun _ _ _ _ H1 H2) in Hx.
      apply (HD y); [by eapply list_elem_of_lookup_2|done]. }
    split_and!; [|intros j cd Hcd|done].
    + cbn. rewrite map_lookup_filter. destruct (notes c !! k); [|done].
      cbn. by rewrite option_guard_True.
    + cbn. rewrite map_lookup_filter_Some. cbn. rewrite Hcd. naive_solver.
Qed.

Lemma fields_ok_fitting tw_notes :
  fields_ok tw_notes = true →
  fitting (dict_of ((λ n, (id_ n, n)) <$> tw_notes)).
Proof.
  unfold fields_ok. rewrite forallb_forall.
  intros Hall x tw k v [Hin _]%emap_lookup Hk.
  apply list_elem_of_In, Hall in Hin. rewrite forallb_forall in Hin.
  apply elem_of_map_to_list, list_elem_of_In, Hin in Hk. cbn in Hk.
  apply andb_prop in Hk as [H1%bool_decide_eq_true H2%bool_decide_eq_true]. done.
Qed.

Lemma by_name_Some nm m : by_name nm = Some m → m ∈ all_note_types ∧ name m = nm.
Proof.
  unfold by_name. destruct (list_find _ _) as [[i m']|] eqn:Hf; [|done].
  cbn. intros [= ->]. apply list_find_Some in Hf as (Hi & Hn & _).
  split; [by eapply list_elem_of_lookup_2|done].
Qed.

Lemma by_name_is_Some m : m ∈ all_note_types → is_Some (by_name (name m)).
Proof.
  intros Hm. unfold by_name.
  destruct (list_find_elem_of (λ m', name m' = name m) _ m Hm eq_refl) as [[i m'] ->].
  by eexists.
Qed.

Lemma loaded_notes c c' : notes c' = notes c → loaded c' = loaded c.
Proof. unfold loaded, notes_of_types. by intros ->. Qed.

Lemma notes_ok_conforming c keyed :
  notes_ok c = true → verified c → keyed.*2 = loaded c →
  conforming (dict_of keyed).
Proof.
  unfold notes_ok. rewrite forallb_forall.
  intros Hok Hv Hk2 x n m Hx%dict_of_lookup Hm Hname.
  assert (n ∈ loaded c) as Hn.
  { rewrite <-Hk2. apply list_elem_of_fmap. by exists (x, n). }
  apply list_elem_of_In, Hok in Hn.
  destruct (by_name_is_Some m Hm) as [m0 Hm0]. rewrite Hname in Hm0.
  rewrite Hm0 in Hn. apply bool_decide_eq_true in Hn. rewrite Hn.
  apply by_name_Some in Hm0 as [Hin0 Hname0].
  apply (verified_same_fields c); try done. congruence.
Qed.

(** ** A run leaves the collection in sync *)

Lemma sync_synced tw_notes default_deck c s c' :
  (∀ X, order X ≡ₚ elements X) →
  types_ok = true → source_ok tw_notes = true → fields_ok tw_notes = true →
  unique_ids c = true → notes_ok c = true →
  sync tw_notes default_deck c = Done s c' →
  synced default_deck tw_notes c'.
Proof.
  intros Hord Hty Hsrc Hfld Huniq Hnok Hrun.
  destruct (sync_holds _ _ _ _ _ Hord Hty Hsrc Huniq Hrun) as (Hv' & Hu' & Hids').
  apply sync_inv in Hrun
    as (c0 & keyed & Hens & Hv & Hn0 & _ & _ & Hk2 & Hk1 & Hrun).
  pose proof (source_ok_keyed_by_id _ Hsrc) as Hemap.
  pose proof (fields_ok_fitting _ Hfld) as Hfit.
  assert (Hu0 : unique c0).
  { apply (unique_ids_notes c); [done|by apply unique_ids_spec]. }
  assert (Hlink0 : linked c0 (dict_of keyed)).
  { intros x n Hx. by apply (amap_lookup c0 keyed Hk2 Hk1). }
  assert (Hconf0 : conforming (dict_of keyed)).
  { apply (notes_ok_conforming c0); [|done..].
    unfold notes_ok. by rewrite (loaded_notes c c0). }
  assert (Hall0 : all_keyed c0).
  { intros k r Hk Hrec.
    assert ({| nid := k; nrow := r |} ∈ keyed.*2) as Hin.
    { rewrite Hk2. by apply elem_of_loaded. }
    apply list_elem_of_fmap in Hin as ([x n] & Heq & Hin). cbn in Heq. subst n.
    rewrite Forall_forall in Hk1. pose proof (Hk1 _ Hin) as Hx. cbn in Hx.
    rewrite Hx. eauto. }
  unfold apply_changes in Hrun. rewrite (keyed_ids c0 keyed Hk2 Hk1) in Hrun.
  set (src := list_to_set (id_ <$> tw_notes) : gset string) in *.
  set (tgt := target_ids c0) in *.
  set (emap := dict_of ((λ n, (id_ n, n)) <$> tw_notes)) in *.
  apply bind_inv in Hrun as ([] & ca & Hadd & Hrun).
  apply bind_inv in Hrun as (st & cb & Hedit & Hrun).
  apply bind_inv in Hrun as (ids & cc & [-> Hids]%note_ids_inv & Hrun).
  apply bind_inv in Hrun as ([] & cd & Hrm & Hrun).
  injection Hrun as <- <-. injection Hrm as <-.
  assert (Hnotin : ∀ x, x ∈ order (adds src tgt) → x ∉ target_ids c0).
  { intros x Hx%(elem_of_order Hord). unfold adds in Hx.
    by apply elem_of_difference in Hx as [_ ?]. }
  destruct (add_loop_holds _ _ (dict_of keyed) _ _ _ Hty Hemap Hv Hu0 Hlink0
              (order_NoDup Hord _) Hnotin Hadd) as (Hva & Hua & Hlinka & Hidsa).
  assert (Hsync0 : synced_on default_deck emap ∅ c0).
  { by intros x tw ?%not_elem_of_empty. }
  destruct (add_loop_sync default_deck emap _ ∅ _ _ Hty Hemap Hfit Hv Hall0
              Hsync0 Hadd) as [Halla Hsynca].
  destruct (edit_loop_holds _ _ _ (dict_of keyed, 0) _ _ _ Hty Hemap Hva Hua
              Hlinka Hedit) as (Hvb & Hub & Hlinkb & Hidsb).
  assert (HDa : ∀ x, x ∈ order (edits src tgt)
    → x ∉ (∅ ∪ list_to_set (order (adds src tgt)) : gset string)).
  { intros x Hx%(elem_of_order Hord). rewrite (list_to_set_order Hord).
    unfold edits, adds in *. set_solver. }
  destruct (edit_loop_sync default_deck emap _ _ (dict_of keyed, 0) _ _ _
              Hty Hemap Hfit Hva Hlinka Hconf0 Halla
              (order_NoDup Hord _) HDa Hsynca Hedit) as [Hallb Hsyncb].
  assert (HDb : ∀ x, x ∈ order (removes src tgt)
    → x ∉ (∅ ∪ list_to_set (order (adds src tgt))
             ∪ list_to_set (order (edits src tgt)) : gset string)).
  { intros x Hx%(elem_of_order Hord). rewrite !(list_to_set_order Hord).
    unfold removes, edits, adds in *. set_solver. }
  destruct (remove_sync default_deck emap st.1 _ ids _ cb Hemap Hlinkb Hids
              HDb Hallb Hsyncb) as [Hallc Hsyncc].
  split_and!; try done.
  intros x tw Hx. apply Hsyncc. rewrite !(list_to_set_order Hord).
  unfold edits, adds. fold src in Hx.
  destruct (decide (x ∈ tgt)); set_solver.
Qed.

(** ** A run on a collection in sync *)

Section SecondRun.
Context (default_deck : string) (tw_notes : list TwNote) (c : Col).
Context (keyed : list (string * Note)).
Hypothesis Hsrc : source_ok tw_notes = true.
Hypothesis Hsynced : synced default_deck tw_notes c.
Hypothesis Hloaded : keyed.*2 = loaded c.
Hypothesis Hkeys : Forall (λ kn, twid_of (nrow kn.2) = Some kn.1) keyed.

(** An edit of a note in sync writes nothing. *)
Lemma edit_one_noop x n0 :
  x ∈ source_ids tw_notes →
  edit_one default_deck (dict_of ((λ n, (id_ n, n)) <$> tw_notes)) x
    (dict_of keyed, n0) c
  = Done (dict_of keyed, n0) c.
Proof.
  intros Hx. destruct Hsynced as (Hv & Hu & Hall & Hids & Hsync).
  pose proof (source_ok_keyed_by_id _ Hsrc) as Hemap.
  set (emap := dict_of ((λ n, (id_ n, n)) <$> tw_notes)) in *.
  assert (is_Some (emap !! x)) as [tw Htw].
  { apply elem_of_dom. unfold emap. by rewrite emap_dom. }
  assert (is_Some (dict_of keyed !! x)) as [an Han].
  { apply elem_of_dom. rewrite (amap_dom c keyed Hloaded Hkeys), Hids. exact Hx. }
  destruct (amap_lookup c keyed Hloaded Hkeys x an Han) as (Hrow & Hrec & Htwid).
  destruct (Hsync x tw Hx Htw) as (k & Hk).
  assert (k = nid an) as ->.
  { apply (Hu _ _ x); [by eapply in_sync_holds|]. by exists (nrow an). }
  destruct Hk as (r & dk & Hr & Hmn & Hfe & Hdk & Hcards).
  rewrite Hrow in Hr. injection Hr as <-.
  assert ({| nid := nid an; nrow := nrow an |} = an) as Heta by by destruct an.
  rewrite Heta in Hfe.
  unfold edit_one. cbn [fst snd]. rewrite Han, Htw. cbn [of_option].
  unfold bind at 1. cbn [ret]. unfold bind at 1. cbn [ret].
  unfold bind at 1. unfold type_check, model_equal.
  rewrite bool_decide_eq_true_2 by done. cbn [negb ret].
  unfold bind at 1. unfold field_check. rewrite Hfe. cbn [negb ret fst snd].
  destruct (update_deck_run tw an default_deck c)
    as (d & c1 & c' & Hrun1 & Hrun' & _ & _ & _ & _ & _ & Hsame).
  destruct (decks_id_run (or_ (target_deck tw) default_deck) c)
    as (d' & c1' & Hrun1' & Hd1 & _ & _ & _ & _ & Hsame1 & _).
  rewrite Hrun1 in Hrun1'. injection Hrun1' as <- <-.
  rewrite Hsame1 in * by eauto.
  assert (d = dk) as -> by congruence.
  rewrite (Hsame Hcards) in Hrun'.
  rewrite (bind_done _ _ _ _ _ Hrun'). cbn. by rewrite insert_id.
Qed.

Lemma edit_loop_noop (l : list string) n0 :
  (∀ x, x ∈ l → x ∈ source_ids tw_notes) →
  for_fold l (edit_one default_deck (dict_of ((λ n, (id_ n, n)) <$> tw_notes)))
    (dict_of keyed, n0) c
  = Done (dict_of keyed, n0) c.
Proof.
  induction l as [|x l IH]; intros Hl; [done|].
  cbn [for_fold]. rewrite (bind_done _ _ _ _ _ (edit_one_noop x n0 (Hl x ltac:(by left)))).
  apply IH. intros y Hy. apply Hl. by right.
Qed.
End SecondRun.

Lemma remove_nothing c :
  remove_notes [] c = Done tt (log (OpRemoveNotes []) c).
Proof.
  unfold remove_notes, modify. f_equal. destruct c as [ms ns cs ds l]. cbn.
  unfold log, set_cards, set_notes. cbn. f_equal.
  - apply map_filter_id. intros i x _. cbn. apply not_elem_of_nil.
  - apply map_filter_id. intros i x _. cbn. apply not_elem_of_nil.
Qed.

(** A run on a collection in sync with the source notes: nothing is added,
    no field is written, no card is moved, nothing is removed. *)
Lemma second_run tw_notes default_deck c :
  (∀ X, order X ≡ₚ elements X) →
  source_ok tw_notes = true →
  synced default_deck tw_notes c →
  sync tw_notes default_deck c
  = Done (join newline [summary_line "Added" 0; summary_line "Updated" 0;
                        summary_line "Removed" 0])
      (log (OpRemoveNotes []) c).
Proof.
  intros Hord Hsrc Hsynced.
  pose proof Hsynced as (Hv & Hu & Hall & Hids & Hsync).
  destruct (keyed_run (loaded c) c) as [keyed Hk].
  { apply Forall_forall. intros n [Hn Hrec]%elem_of_loaded. by eapply Hall. }
  pose proof (keyed_inv _ _ _ _ Hk) as (_ & Hk2 & Hk1).
  rewrite (sync_run _ _ _ keyed Hv Hk).
  unfold apply_changes. rewrite (keyed_ids c keyed Hk2 Hk1), Hids.
  set (src := list_to_set (id_ <$> tw_notes) : gset string).
  assert (Hempty : order (∅ : gset string) = []).
  { apply Permutation_nil_r. by rewrite Hord, elements_empty. }
  assert (adds src src = ∅) as -> by (unfold adds; set_solver).
  assert (removes src src = ∅) as -> by (unfold removes; set_solver).
  assert (edits src src = src) as -> by (unfold edits; set_solver).
  rewrite Hempty, size_empty. cbn [for_each]. unfold bind at 1. cbn [ret].
  assert (Hin : ∀ x, x ∈ order src → x ∈ source_ids tw_notes).
  { intros x Hx%(elem_of_order Hord). exact Hx. }
  rewrite (bind_done _ _ _ _ _
    (edit_loop_noop default_deck tw_notes c keyed Hsrc Hsynced Hk2 Hk1 _ 0 Hin)).
  cbn [map_m]. unfold bind at 1. cbn [ret].
  by rewrite (bind_done _ _ _ _ _ (remove_nothing c)).
Qed.

(** ** A run ends normally *)

Lemma ensure_loop_verified (l : list ModelData) : ∀ c,
  NoDup (name <$> l) →
  (∀ m, m ∈ l →
     models c !! name m = None
     ∨ models c !! name m = Some {| flds := fields m; tmpls := templates m |}) →
  ∃ c0, for_each l (λ m, do r <- models_by_name (name m);
                         match r with Some _ => ret tt | None => register m end) c
        = Done tt c0
    ∧ (∀ m, m ∈ l →
         models c0 !! name m = Some {| flds := fields m; tmpls := templates m |})
    ∧ (∀ nm, nm ∉ name <$> l → models c0 !! nm = models c !! nm).
Proof.
  induction l as [|m l IH]; intros c Hnd Hok.
  { exists c. split_and!; [done| |done]. by intros m ?%elem_of_nil. }
  rewrite fmap_cons in Hnd. apply NoDup_cons in Hnd as [Hm Hnd].
  cbn [for_each]. unfold bind at 1. unfold models_by_name at 1, bind at 1, get.
  destruct (models c !! name m) as [nt|] eqn:Hlook.
  - destruct (IH c Hnd) as (c0 & Hrun & Hall & Hother).
    { intros m' Hm'. apply Hok. by right. }
    exists c0. split_and!; [done| |].
    + intros m' [->|Hm']%elem_of_cons; [|by apply Hall].
      rewrite Hother by done. destruct (Hok m) as [?|?]; [by left|congruence|congruence].
    + intros nm Hnm. apply Hother. rewrite fmap_cons in Hnm.
      by apply not_elem_of_cons in Hnm as [_ ?].
  - set (c1 := log (OpAddNotetype (name m))
        (set_models (insert (name m) {| flds := fields m; tmpls := templates m |}) c)).
    destruct (IH c1 Hnd) as (c0 & Hrun & Hall & Hother).
    { intros m' Hm'. unfold c1. cbn. rewrite lookup_insert_ne.
      - apply Hok. by right.
      - intros Heq. apply Hm. rewrite Heq. apply list_elem_of_fmap. by exists m'. }
    exists c0. split_and!; [done| |].
    + intros m' [->|Hm']%elem_of_cons; [|by apply Hall].
      rewrite Hother by done. unfold c1. cbn. by rewrite lookup_insert_eq.
    + intros nm Hnm. rewrite fmap_cons in Hnm.
      apply not_elem_of_cons in Hnm as [Hne Hnm]. rewrite Hother by done.
      unfold c1. cbn. by rewrite lookup_insert_ne.
Qed.

Lemma ensure_verified c :
  names_ok = true → models_ok c = true →
  ∃ c0, ensure_note_types c = Done tt c0 ∧ verified c0 ∧ notes c0 = notes c.
Proof.
  unfold names_ok, models_ok. intros Hnd%bool_decide_eq_true Hok.
  rewrite forallb_forall in Hok.
  destruct (ensure_loop_verified all_note_types c Hnd) as (c0 & Hrun & Hall & _).
  { intros m Hm%list_elem_of_In%Hok.
    destruct (models c !! name m) as [[f t]|]; [|by left]. right.
    apply bool_decide_eq_true in Hm as [Hf Ht]. cbn in *. by subst. }
  exists c0. split_and!; [done|done|].
  destruct (ensure_run c) as (c0' & Hrun' & Hn & _).
  unfold ensure_note_types in Hrun'. rewrite Hrun in Hrun'. by injection Hrun' as <-.
Qed.

Lemma add_loop_total default_deck (emap : gmap string TwNote) l : ∀ c,
  verified c → keyed_by_id emap → (∀ x, x ∈ l → is_Some (emap !! x)) →
  ∃ c', for_each l (add_one default_deck emap) c = Done tt c'.
Proof.
  induction l as [|x l IH]; intros c Hv Hemap Hl; [by exists c|].
  destruct (Hl x) as [tw Htw]; [by left|].
  destruct (Hemap x tw Htw) as [Hmodel _].
  destruct (add_one_run default_deck emap x tw _ c Htw (Hv _ Hmodel))
    as (d & c1 & n & c' & _ & Hrun & _ & _ & _ & _ & Hm & _).
  destruct (IH c') as [c'' Hrun'']; [by eapply verified_models|done| |].
  { intros y Hy. apply Hl. by right. }
  exists c''. cbn [for_each]. by rewrite (bind_done _ _ _ _ _ Hrun).
Qed.

Lemma add_loop_linked default_deck (emap : gmap string TwNote)
    (amap : gmap string Note) l : ∀ c c',
  types_ok = true → keyed_by_id emap → verified c → linked c amap →
  for_each l (add_one default_deck emap) c = Done tt c' →
  verified c' ∧ linked c' amap.
Proof.
  induction l as [|x l IH]; intros c c' Hty Hemap Hv Hlink Hrun.
  { by injection Hrun as <-. }
  cbn [for_each] in Hrun. apply bind_inv in Hrun as ([] & c1 & Hx & Hrun).
  destruct (add_one_shape _ _ _ _ _ Hty Hv Hemap Hx)
    as (tw & k & dk & _ & Hfresh & _ & Hn & _ & Hm & _).
  apply (IH c1 c'); try done; [by eapply verified_models|].
  intros y n Hy. destruct (Hlink y n Hy) as (Hrow & ? & ?).
  split_and!; try done. rewrite Hn, lookup_insert_ne; [done|].
  intros Heq. rewrite Heq in Hfresh. congruence.
Qed.

Lemma edit_one_total default_deck (emap : gmap string TwNote) x st c an tw :
  verified c → keyed_by_id emap → linked c st.1 →
  st.1 !! x = Some an → emap !! x = Some tw →
  ∃ st' c', edit_one default_deck emap x st c = Done st' c'.
Proof.
  intros Hv Hemap Hlink Han Htw.
  destruct (Hemap x tw Htw) as [Hmodel _].
  destruct (Hlink x an Han) as (Hrow & Hrec & _).
  assert (∃ an1 c1, type_check tw an c = Done an1 c1) as (an1 & c1 & Htc).
  { unfold type_check. destruct (model_equal tw an); cbn [negb]; [by eexists _, _|].
    apply list_elem_of_fmap in Hrec as (m & Hname & Hm).
    destruct (by_name_is_Some m Hm) as [old Hold]. rewrite <-Hname in Hold.
    eexists _, _.
    exact (change_note_type_run tw an old _ (nrow an) c Hold (Hv _ Hmodel) Hrow). }
  assert (∃ checked c2, field_check tw an1 c1 = Done checked c2)
    as (checked & c2 & Hfc).
  { unfold field_check. destruct (fields_equal tw an1); cbn [negb]; by eexists _, _. }
  destruct (update_deck_run tw checked.1 default_deck c2)
    as (d & c3 & c' & _ & Hud & _).
  eexists _, c'. unfold edit_one. rewrite Han, Htw. cbn [of_option].
  unfold bind at 1. cbn [ret]. unfold bind at 1. cbn [ret].
  rewrite (bind_done _ _ _ _ _ Htc), (bind_done _ _ _ _ _ Hfc).
  by rewrite (bind_done _ _ _ _ _ Hud).
Qed.

Lemma edit_loop_total default_deck (emap : gmap string TwNote) l : ∀ st c,
  types_ok = true → verified c → keyed_by_id emap → linked c st.1 →
  (∀ x, x ∈ l → is_Some (st.1 !! x) ∧ is_Some (emap !! x)) →
  ∃ st' c', for_fold l (edit_one default_deck emap) st c = Done st' c'
    ∧ dom st'.1 = dom st.1.
Proof.
  induction l as [|x l IH]; intros st c Hty Hv Hemap Hlink Hl; [by exists st, c|].
  destruct (Hl x) as [[an Han] [tw Htw]]; [by left|].
  destruct (edit_one_total default_deck emap x st c an tw Hv Hemap Hlink Han Htw)
    as (st1 & c1 & Hrun).
  destruct (edit_one_holds _ _ _ _ _ _ _ Hty Hv Hemap Hlink Hrun) as (_ & Hm & Hlink1).
  destruct (edit_one_shape _ _ _ _ _ _ _ Hty Hv Hemap Hlink Hrun)
    as (an' & tw' & r' & dk & _ & _ & Hst & _).
  assert (Hdom : dom st1.1 = dom st.1).
  { rewrite Hst, dom_insert_L. apply elem_of_dom_2 in Han. set_solver. }
  destruct (IH st1 c1) as (st' & c' & Hrun' & Hdom'); try done.
  - by eapply verified_models.
  - intros y Hy. destruct (Hl y) as [Hy1 Hy2]; [by right|]. split; [|done].
    apply elem_of_dom. rewrite Hdom. by apply elem_of_dom.
  - exists st', c'. split; [|congruence].
    cbn [for_fold]. by rewrite (bind_done _ _ _ _ _ Hrun).
Qed.

Lemma note_ids_total (amap : gmap string Note) l c :
  (∀ x, x ∈ l → is_Some (amap !! x)) →
  ∃ ids, map_m (note_id_of amap) l c = Done ids c.
Proof.
  induction l as [|x l IH]; intros Hl; [by exists []|].
  destruct (Hl x) as [n Hn]; [by left|].
  destruct IH as [ids Hids]; [intros y Hy; apply Hl; by right|].
  exists (nid n :: ids). cbn [map_m]. unfold bind at 1, note_id_of at 1.
  rewrite Hn. cbn. unfold bind. by rewrite Hids.
Qed.


(** ** Seeding is skipped without a progress snapshot *)

(** C8: for a new note whose source note has no progress snapshot the
    scheduling seeder returns without touching the collection, and the add
    handling ends normally in the collection as [add_note] left it. *)
Theorem no_schedule_no_seeding default_deck (m : gmap string TwNote)
    note_id tw_note nt c :
  m !! note_id = Some tw_note →
  models c !! name (model tw_note) = Some nt →
  schedule tw_note = None →
  (∀ n c0, _set_initial_scheduling tw_note n c0 = Done tt c0)
  ∧ ∃ d c1 n c2,
      decks_id (or_ (target_deck tw_note) default_deck) c = Done d c1
      ∧ add_note (update_row tw_note (new_note (name (model tw_note)) nt)) d c1
        = Done n c2
      ∧ add_one default_deck m note_id c = Done tt c2.
Proof.
  intros Hm Hnt Hs. split.
  { intros n c0. unfold _set_initial_scheduling. by rewrite Hs. }
  destruct (decks_id (or_ (target_deck tw_note) default_deck) c) as [d c1|e c1] eqn:Hd.
  2:{ unfold decks_id in Hd. by destruct (decks c !! _). }
  exists d, c1. eexists _, _. split; [done|]. split; [reflexivity|].
  unfold add_one.
  rewrite Hm. cbn [of_option]. unfold bind at 1. cbn [ret].
  unfold bind at 1. unfold models_by_name, get. rewrite Hnt.
  unfold bind at 1. cbn [of_option ret].
  unfold bind at 1. cbn [nrow update_fields]. rewrite Hd.
  unfold bind. cbn. unfold _set_initial_scheduling. by rewrite Hs.
Qed.

(** ** More on the deck mover *)

Lemma move_loop_log d (l : list (nat * Card)) : ∀ c,
  oplog (col_of (for_each l (move_card d) c))
  = reverse (OpFlushCard <$> (filter (λ kc, did kc.2 ≠ d) l).*1) ++ oplog c.
Proof.
  induction l as [|[k cd] l IH]; intros c; [done|].
  cbn [for_each]. unfold bind. unfold move_card at 1. cbn [fst snd].
  destruct (decide (did cd ≠ d)) as [Hne|Heq].
  - rewrite filter_cons_True by done. cbn [flush_card modify].
    rewrite IH. rewrite !fmap_cons, reverse_cons, <-(assoc_L (++)). done.
  - rewrite filter_cons_False by done. cbn [ret]. apply IH.
Qed.


(** X3: [_update_deck] is idempotent: run again on the collection it
    left, it ends normally and makes no call, so that the collection and
    its log are the same. *)
Theorem update_deck_idempotent tw_note anki_note default_deck c :
  let c' := col_of (_update_deck tw_note anki_note default_deck c) in
  _update_deck tw_note anki_note default_deck c' = Done tt c'.
Proof.
  destruct (update_deck_run tw_note anki_note default_deck c)
    as (d & c1 & c' & Hrun1 & Hrun' & Hc' & Hn' & Hd' & Hm' & _ & _).
  rewrite Hrun'. cbn [col_of].
  destruct (decks_id_run (or_ (target_deck tw_note) default_deck) c)
    as (d0 & c0 & Hrun0 & Hd0 & _).
  rewrite Hrun1 in Hrun0. injection Hrun0 as <- <-.
  destruct (update_deck_run tw_note anki_note default_deck c')
    as (d2 & c2 & c3 & Hrun2 & Hrun3 & _ & _ & _ & _ & _ & Hsame).
  assert (Hd2 : decks_id (or_ (target_deck tw_note) default_deck) c' = Done d c').
  { unfold decks_id. by rewrite Hd', Hd0. }
  rewrite Hd2 in Hrun2. injection Hrun2 as <- <-.
  rewrite Hrun3. f_equal. apply Hsame.
  intros k cd Hk Hn. rewrite Hc' in Hk. by eapply moved_cards_own.
Qed.

(** ** More on the scheduling seeder *)

Lemma seed_loop_log s (l : list nat) : ∀ c,
  (∀ k, k ∈ l → is_Some (cards c !! k)) →
  oplog (col_of (for_each l (seed_card s) c))
  = flat_map (seed_calls today s) (reverse l) ++ oplog c.
Proof.
  induction l as [|k l IH]; intros c Hin; [done|].
  destruct (Hin k) as [cd Hcd]; [by left|].
  destruct (seed_card_run s k cd c Hcd) as (c1 & Hrun & Hc1 & _ & _ & _ & Hl1).
  cbn [for_each]. rewrite (bind_done _ _ _ _ _ Hrun). rewrite IH.
  - rewrite reverse_cons, flat_map_app, Hl1, <-(assoc_L (++)). done.
  - intros j Hj. rewrite Hc1. destruct (decide (k = j)) as [->|Hne].
    + rewrite lookup_insert_eq. eauto.
    + rewrite lookup_insert_ne by done. apply Hin. by right.
Qed.


(** ** More on the type migrator *)

Lemma change_note_type_gone tw_note anki_note old nt c :
  by_name (mname (nrow anki_note)) = Some old →
  models c !! name (model tw_note) = Some nt →
  notes c !! nid anki_note = None →
  _change_note_type tw_note anki_note c
  = Raise IndexError
      (log (OpChangeNotetype (nid anki_note) (name (model tw_note)))
         (set_cards
            (omap (remap_card (nid anki_note) (card_remap old (model tw_note))))
            c)).
Proof.
  intros Hold Hnt Hr.
  assert (Halter : ∀ f, alter f (nid anki_note) (notes c) = notes c).
  { intros f. apply map_eq. intros k. rewrite lookup_alter.
    case_decide as Hk; [|done]. subst k. by rewrite Hr. }
  unfold _change_note_type. rewrite Hold.
  unfold models_by_name, bind, get. rewrite Hnt. cbn.
  rewrite Halter, Hr. cbn. unfold log, set_cards. cbn. by rewrite Halter.
Qed.



(** ** What a run never touches *)

Lemma for_fold_inv {A S} (R : Col → Col → Prop) (K : S → Prop) (l : list A)
    (body : A → S → M S) :
  (∀ c, R c c) → (∀ c1 c2 c3, R c1 c2 → R c2 c3 → R c1 c3) →
  (∀ x s c, K s →
     R c (col_of (body x s c)) ∧ ∀ s' c', body x s c = Done s' c' → K s') →
  ∀ s c, K s →
    R c (col_of (for_fold l body s c))
    ∧ ∀ s' c', for_fold l body s c = Done s' c' → K s'.
Proof.
  intros Hrefl Htrans Hbody. induction l as [|x l IH]; intros s c HK.
  { split; [apply Hrefl|]. by intros s' c' [= <- <-]. }
  cbn [for_fold]. unfold bind. destruct (Hbody x s c HK) as [HR HK'].
  destruct (body x s c) as [s1 c1|e c1]; cbn in HR; [|by split].
  destruct (IH s1 c1 (HK' s1 c1 eq_refl)) as [HR1 HK1]. split; [|done].
  by eapply Htrans.
Qed.

Lemma verify_same c : col_of (verify_note_types c) = c.
Proof.
  apply (respects_for_each (λ c c' : Col, c' = c)); [done|congruence|].
  intros m. apply respects_bind; [congruence|by apply respects_get|].
  intros [nt|]; [|by apply respects_raise].
  destruct (decide _); [by apply respects_ret | by apply respects_raise].
Qed.

Lemma keyed_same (l : list Note) c : col_of (map_m keyed_note l c) = c.
Proof.
  apply (respects_map_m (λ c c' : Col, c' = c)); [done|congruence|].
  intros n. apply keyed_note_respects; [done|congruence].
Qed.

Lemma note_ids_same (amap : gmap string Note) l c :
  col_of (map_m (note_id_of amap) l c) = c.
Proof.
  apply (respects_map_m (λ c c' : Col, c' = c)); [done|congruence|].
  intros n. apply note_id_of_respects; [done|congruence].
Qed.

Lemma spares_refl N c : spares N c c.
Proof. by split. Qed.

Lemma spares_trans N c1 c2 c3 : spares N c1 c2 → spares N c2 c3 → spares N c1 c3.
Proof. intros [H1 H2] [H3 H4]. split; eauto. Qed.

Lemma spares_same N c c' : notes c' = notes c → cards c' = cards c → spares N c c'.
Proof. intros Hn Hc. split; intros ? ? _ H; congruence. Qed.

Lemma add_one_spares N default_deck (emap : gmap string TwNote) x :
  respects (spares N) (add_one default_deck emap x).
Proof.
  intros c. destruct (emap !! x) as [tw|] eqn:Hx.
  2:{ unfold add_one. rewrite Hx. apply spares_refl. }
  destruct (models c !! name (model tw)) as [nt|] eqn:Hnt.
  2:{ unfold add_one. rewrite Hx. cbn [of_option]. unfold bind at 1. cbn [ret].
      unfold bind at 1. unfold models_by_name, get. rewrite Hnt.
      apply spares_refl. }
  destruct (add_one_run default_deck emap x tw nt c Hx Hnt)
    as (d & c1 & n & c' & _ & Hrun & Hfresh & _ & Hn & _ & _ & Hold & _).
  rewrite Hrun. cbn [col_of]. split.
  - intros k r _ Hk. rewrite Hn, lookup_insert_ne; [done|]. intros ->. congruence.
  - intros j cd _ Hj. by apply Hold.
Qed.

Lemma update_deck_spares N tw_note anki_note default_deck :
  nid anki_note ∈ N →
  respects (spares N) (_update_deck tw_note anki_note default_deck).
Proof.
  intros HN c.
  destruct (update_deck_run tw_note anki_note default_deck c)
    as (d & c1 & c' & _ & Hrun & Hc' & Hn' & _).
  rewrite Hrun. cbn [col_of]. split.
  - intros k r _ Hk. by rewrite Hn'.
  - intros j cd Hcd Hj. rewrite Hc'. apply moved_cards_other; [|done].
    intros Heq. apply Hcd. by rewrite Heq.
Qed.

Lemma change_note_type_spares N tw_note anki_note :
  nid anki_note ∈ N → respects (spares N) (_change_note_type tw_note anki_note).
Proof.
  intros HN. unfold _change_note_type.
  destruct (by_name _); [|apply respects_raise, spares_refl].
  apply respects_bind; [apply spares_trans|apply respects_get, spares_refl|].
  intros new_model.
  apply respects_bind; [apply spares_trans|apply respects_of_option, spares_refl|].
  intros nt.
  apply respects_bind; [apply spares_trans| |].
  { apply respects_modify. intros c. split.
    - intros k r Hk Hr. cbn. rewrite lookup_alter. case_decide as Heq; [|done].
      by subst k.
    - intros j cd Hcd Hj. cbn. apply remap_cards_other; [|done].
      intros Heq. apply Hcd. by rewrite Heq. }
  intros _.
  apply respects_bind; [apply spares_trans|apply respects_get, spares_refl|].
  intros found.
  apply respects_bind; [apply spares_trans|apply respects_of_option, spares_refl|].
  intros first. apply getNote_respects; [apply spares_refl|apply spares_trans].
Qed.

Lemma field_check_spares N tw_note anki_note :
  nid anki_note ∈ N → respects (spares N) (field_check tw_note anki_note).
Proof.
  intros HN. unfold field_check. destruct (negb _); [|apply respects_ret, spares_refl].
  apply respects_bind; [apply spares_trans| |intros _; apply respects_ret, spares_refl].
  apply respects_modify. intros c. split.
  - intros k r Hk Hr. cbn. rewrite lookup_insert_ne; [done|]. by intros <-.
  - by intros j cd _ Hj.
Qed.

Lemma type_check_spares N tw_note anki_note :
  nid anki_note ∈ N → respects (spares N) (type_check tw_note anki_note).
Proof.
  intros HN. unfold type_check.
  destruct (negb _); [by apply change_note_type_spares|apply respects_ret, spares_refl].
Qed.

Lemma type_check_nid tw_note anki_note c an1 c1 :
  type_check tw_note anki_note c = Done an1 c1 → nid an1 = nid anki_note.
Proof.
  intros [(_ & -> & _)|(_ & old & nt & r & _ & _ & _ & -> & _)]%type_check_inv; done.
Qed.

Lemma field_check_nid tw_note anki_note c checked c1 :
  field_check tw_note anki_note c = Done checked c1 → nid checked.1 = nid anki_note.
Proof.
  intros [(_ & -> & _)|(_ & -> & _)]%field_check_inv; done.
Qed.

Lemma edit_one_spares N default_deck (emap : gmap string TwNote) x st c :
  (∀ y n, st.1 !! y = Some n → nid n ∈ N) →
  spares N c (col_of (edit_one default_deck emap x st c))
  ∧ ∀ st' c', edit_one default_deck emap x st c = Done st' c' →
      ∀ y n, st'.1 !! y = Some n → nid n ∈ N.
Proof.
  intros HK. split.
  - unfold edit_one. destruct (st.1 !! x) as [an|] eqn:Hx; [|apply spares_refl].
    destruct (emap !! x) as [tw|] eqn:Htw; [|apply spares_refl].
    cbn [of_option]. unfold bind at 1. cbn [ret]. unfold bind at 1. cbn [ret].
    pose proof (HK x an Hx) as HN.
    unfold bind at 1.
    pose proof (type_check_spares N tw an HN c) as H1.
    destruct (type_check tw an c) as [an1 c1|e c1] eqn:Htc; cbn in H1; [|done].
    apply type_check_nid in Htc. rewrite <-Htc in HN.
    eapply spares_trans; [exact H1|].
    unfold bind at 1.
    pose proof (field_check_spares N tw an1 HN c1) as H2.
    destruct (field_check tw an1 c1) as [checked c2|e c2] eqn:Hfc; cbn in H2; [|done].
    apply field_check_nid in Hfc. rewrite <-Hfc in HN.
    eapply spares_trans; [exact H2|].
    unfold bind at 1.
    pose proof (update_deck_spares N tw checked.1 default_deck HN c2) as H3.
    destruct (_update_deck tw checked.1 default_deck c2) as [[] c3|e c3];
      cbn in H3; done.
  - intros st' c' (an & tw & an1 & c1 & checked & c2 & Hx & _ & Htc & Hfc & _ & ->)%edit_one_inv.
    cbn [fst]. intros y n Hy. destruct (decide (x = y)) as [->|Hne].
    + rewrite lookup_insert_eq in Hy. injection Hy as <-.
      rewrite (field_check_nid _ _ _ _ _ Hfc), (type_check_nid _ _ _ _ _ Htc).
      by eapply HK.
    + rewrite lookup_insert_ne in Hy by done. by eapply HK.
Qed.

Lemma remove_notes_spares (N : gset nat) ids :
  (∀ i, i ∈ ids → i ∈ N) → respects (spares N) (remove_notes ids).
Proof.
  intros Hids. apply respects_modify. intros c. split.
  - intros k r Hk Hr. cbn. apply map_lookup_filter_Some. split; [done|].
    cbn. intros Hin. by apply Hk, Hids.
  - intros j cd Hcd Hj. cbn. apply map_lookup_filter_Some. split; [done|].
    cbn. intros Hin. by apply Hcd, Hids.
Qed.

Lemma apply_changes_spares (N : gset nat) tw_notes default_deck
    (keyed : list (string * Note)) c :
  (∀ x n, dict_of keyed !! x = Some n → nid n ∈ N) →
  spares N c (col_of (apply_changes tw_notes default_deck keyed c)).
Proof.
  intros HK. unfold apply_changes.
  set (emap := dict_of ((λ n, (id_ n, n)) <$> tw_notes)).
  set (la := order (adds _ _)). set (le := order (edits _ _)).
  set (lr := order (removes _ _)).
  unfold bind at 1.
  pose proof (respects_for_each (spares N) (spares_refl N) (spares_trans N) la
                (add_one default_deck emap)
                (λ x, add_one_spares N default_deck emap x) c) as Ha.
  destruct (for_each la (add_one default_deck emap) c) as [[] ca|e ca];
    cbn in Ha; [|done].
  eapply spares_trans; [exact Ha|].
  unfold bind at 1.
  destruct (for_fold_inv (spares N) (λ st : gmap string Note * nat,
              ∀ y n, st.1 !! y = Some n → nid n ∈ N) le
              (edit_one default_deck emap) (spares_refl N) (spares_trans N)
              (λ x st c, edit_one_spares N default_deck emap x st c)
              (dict_of keyed, 0) ca HK) as [He HK'].
  destruct (for_fold le (edit_one default_deck emap) (dict_of keyed, 0) ca)
    as [st cb|e cb]; cbn in He; [|done].
  specialize (HK' st cb eq_refl).
  eapply spares_trans; [exact He|].
  unfold bind at 1.
  pose proof (note_ids_same st.1 lr cb) as Hsame.
  destruct (map_m (note_id_of st.1) lr cb) as [ids cc|e cc] eqn:Hids;
    cbn in Hsame; subst cc; [|apply spares_refl].
  apply note_ids_inv in Hids as [_ Hall].
  assert (Hin : ∀ i, i ∈ ids → i ∈ N).
  { intros i Hi. apply list_elem_of_lookup in Hi as [p Hp].
    destruct (Forall2_lookup_r _ _ _ _ _ Hall Hp) as (x & _ & n & Hn & <-).
    by eapply HK'. }
  unfold bind at 1.
  pose proof (remove_notes_spares N ids Hin cb) as Hr.
  destruct (remove_notes ids cb) as [[] cd|e cd]; cbn in Hr; [|done].
  unfold ret. by cbn [col_of].
Qed.

(** X7: a run never touches what is not TiddlyRemember's.  However it
    ends, every note of a type that is not a recognized one is in the
    collection afterwards with the same type and fields, and every card of
    such a note is there unchanged. *)
Theorem sync_spares_other_notes tw_notes default_deck c :
  let c' := col_of (sync tw_notes default_deck c) in
  (∀ k r, notes c !! k = Some r → mname r ∉ recognized_names →
     notes c' !! k = Some r)
  ∧ (∀ j cd r, cards c !! j = Some cd → notes c !! c_nid cd = Some r →
       mname r ∉ recognized_names → cards c' !! j = Some cd).
Proof.
  intros c'.
  assert (Hout : ∀ k r, notes c !! k = Some r → mname r ∉ recognized_names →
    k ∉ recognized_nids all_note_types c).
  { intros k r Hk Hm Hin. unfold recognized_nids in Hin.
    apply elem_of_dom in Hin as [r' Hin].
    apply map_lookup_filter_Some in Hin as [Hk' Hm']. cbn in Hm'.
    rewrite Hk in Hk'. by injection Hk' as <-. }
  assert (Hsp : spares (recognized_nids all_note_types c) c c').
  { unfold c'.
    change (sync tw_notes default_deck) with
      (ensure_note_types ;; verify_note_types ;;
       do found <- find_notes_of_types (name <$> all_note_types);
       do anki_notes <- map_m getNote found;
       do keyed <- map_m keyed_note anki_notes;
       apply_changes tw_notes default_deck keyed).
    destruct (ensure_run c) as (c0 & Hens & Hn0 & Hc0 & _ & _).
    rewrite (bind_done _ _ _ _ _ Hens).
    apply (spares_trans _ _ c0); [by apply spares_same|].
    assert (HN : recognized_nids all_note_types c0 = recognized_nids all_note_types c).
    { unfold recognized_nids, notes_of_types. by rewrite Hn0. }
    rewrite <-HN.
    unfold bind at 1. pose proof (verify_same c0) as Hv.
    destruct (verify_note_types c0) as [[] cv|e cv]; cbn in Hv; subst cv;
      [|apply spares_refl].
    unfold bind at 1, find_notes_of_types, get.
    rewrite (bind_done _ _ _ _ _ (load_run c0)).
    unfold bind at 1. pose proof (keyed_same (loaded c0) c0) as Hks.
    destruct (map_m keyed_note (loaded c0) c0) as [keyed ck|e ck] eqn:Hk;
      cbn in Hks; subst ck; [|apply spares_refl].
    apply keyed_inv in Hk as (_ & Hk2 & Hk1).
    apply apply_changes_spares. intros x n Hx.
    apply (amap_lookup c0 keyed Hk2 Hk1) in Hx as (Hrow & Hm & _).
    unfold recognized_nids. apply elem_of_dom. exists (nrow n).
    by apply map_lookup_filter_Some. }
  split.
  - intros k r Hk Hm. apply Hsp; [|done]. by eapply Hout.
  - intros j cd r Hj Hk Hm. apply Hsp; [|done]. by eapply Hout.
Qed.

Lemma keeps_decks_refl c : keeps_decks c c.
Proof. by split. Qed.

Lemma keeps_decks_trans c1 c2 c3 :
  keeps_decks c1 c2 → keeps_decks c2 c3 → keeps_decks c1 c3.
Proof. intros [? ?] [? ?]. split; by etrans. Qed.

Lemma decks_id_keeps nm : respects keeps_decks (decks_id nm).
Proof.
  intros c. destruct (decks_id_run nm c) as (d & c1 & Hrun & _ & Hsub & _ & _ & Hm & _).
  rewrite Hrun. cbn [col_of]. split; [done|by rewrite Hm].
Qed.

Lemma ensure_keeps : respects keeps_decks ensure_note_types.
Proof.
  apply respects_for_each; [apply keeps_decks_refl|apply keeps_decks_trans|].
  intros m c. unfold bind, models_by_name, get.
  destruct (models c !! name m) as [nt|] eqn:Hm; [apply keeps_decks_refl|].
  split; [done|]. cbn. by apply insert_subseteq.
Qed.

Lemma add_one_keeps default_deck (emap : gmap string TwNote) x :
  respects keeps_decks (add_one default_deck emap x).
Proof.
  intros c. destruct (emap !! x) as [tw|] eqn:Hx.
  2:{ unfold add_one. rewrite Hx. apply keeps_decks_refl. }
  destruct (models c !! name (model tw)) as [nt|] eqn:Hnt.
  2:{ unfold add_one. rewrite Hx. cbn [of_option]. unfold bind at 1. cbn [ret].
      unfold bind at 1. unfold models_by_name, get. rewrite Hnt.
      apply keeps_decks_refl. }
  destruct (add_one_run default_deck emap x tw nt c Hx Hnt)
    as (d & c1 & n & c' & Hrun1 & Hrun & _ & _ & _ & Hd & Hm & _).
  rewrite Hrun. cbn [col_of].
  pose proof (decks_id_keeps (or_ (target_deck tw) default_deck) c) as Hk.
  rewrite Hrun1 in Hk. destruct Hk as [Hk _]. cbn [col_of] in Hk.
  split; [by rewrite Hd|by rewrite Hm].
Qed.

Lemma update_deck_keeps tw_note anki_note default_deck :
  respects keeps_decks (_update_deck tw_note anki_note default_deck).
Proof.
  intros c.
  destruct (update_deck_run tw_note anki_note default_deck c)
    as (d & c1 & c' & Hrun1 & Hrun & _ & _ & Hd & Hm & _).
  rewrite Hrun. cbn [col_of].
  pose proof (decks_id_keeps (or_ (target_deck tw_note) default_deck) c) as Hk.
  rewrite Hrun1 in Hk. destruct Hk as [Hk _]. cbn [col_of] in Hk.
  split; [by rewrite Hd|by rewrite Hm].
Qed.

Lemma edit_one_keeps default_deck (emap : gmap string TwNote) x st :
  respects keeps_decks (edit_one default_deck emap x st).
Proof.
  unfold edit_one.
  apply respects_bind; [apply keeps_decks_trans|apply respects_of_option, keeps_decks_refl|].
  intros anki_note.
  apply respects_bind; [apply keeps_decks_trans|apply respects_of_option, keeps_decks_refl|].
  intros tw_note.
  apply respects_bind; [apply keeps_decks_trans| |].
  { unfold type_check. destruct (negb _); [|apply respects_ret, keeps_decks_refl].
    unfold _change_note_type.
    destruct (by_name _); [|apply respects_raise, keeps_decks_refl].
    apply respects_bind; [apply keeps_decks_trans|apply respects_get, keeps_decks_refl|].
    intros new_model.
    apply respects_bind;
      [apply keeps_decks_trans|apply respects_of_option, keeps_decks_refl|].
    intros nt.
    apply respects_bind; [apply keeps_decks_trans| |].
    { apply respects_modify. intros c.
      split; by cbn [decks models log set_cards set_notes]. }
    intros _.
    apply respects_bind; [apply keeps_decks_trans|apply respects_get, keeps_decks_refl|].
    intros found.
    apply respects_bind;
      [apply keeps_decks_trans|apply respects_of_option, keeps_decks_refl|].
    intros first. apply getNote_respects; [apply keeps_decks_refl|apply keeps_decks_trans]. }
  intros an1.
  apply respects_bind; [apply keeps_decks_trans| |].
  { unfold field_check. destruct (negb _); [|apply respects_ret, keeps_decks_refl].
    apply respects_bind;
      [apply keeps_decks_trans| |intros _; apply respects_ret, keeps_decks_refl].
    apply respects_modify. intros c.
    split; by cbn [decks models log set_cards set_notes]. }
  intros checked.
  apply respects_bind; [apply keeps_decks_trans|apply update_deck_keeps|].
  intros _. apply respects_ret, keeps_decks_refl.
Qed.

Lemma sync_keeps tw_notes default_deck :
  respects keeps_decks (sync tw_notes default_deck).
Proof.
  unfold sync.
  apply respects_bind; [apply keeps_decks_trans|apply ensure_keeps|]. intros _.
  apply respects_bind; [apply keeps_decks_trans| |].
  { intros c. rewrite verify_same. apply keeps_decks_refl. }
  intros _.
  apply respects_bind; [apply keeps_decks_trans|apply respects_get, keeps_decks_refl|].
  intros found.
  apply respects_bind; [apply keeps_decks_trans| |].
  { apply respects_map_m; [apply keeps_decks_refl|apply keeps_decks_trans|].
    intros n. apply getNote_respects; [apply keeps_decks_refl|apply keeps_decks_trans]. }
  intros anki_notes.
  apply respects_bind; [apply keeps_decks_trans| |].
  { intros c. rewrite keyed_same. apply keeps_decks_refl. }
  intros keyed.
  apply respects_bind; [apply keeps_decks_trans| |].
  { apply respects_for_each; [apply keeps_decks_refl|apply keeps_decks_trans|].
    intros x. apply add_one_keeps. }
  intros _.
  apply respects_bind; [apply keeps_decks_trans| |].
  { apply respects_for_fold; [apply keeps_decks_refl|apply keeps_decks_trans|].
    intros x st. apply edit_one_keeps. }
  intros st.
  apply respects_bind; [apply keeps_decks_trans| |].
  { intros c. rewrite note_ids_same. apply keeps_decks_refl. }
  intros ids.
  apply respects_bind; [apply keeps_decks_trans| |].
  { apply respects_modify. intros c.
      split; by cbn [decks models log set_cards set_notes]. }
  intros _. apply respects_ret, keeps_decks_refl.
Qed.

(** X8: a run never loses a deck or a note type.  However it ends, every
    deck of the collection is still there under the same name with the
    same id, and every registered note type is still registered with the
    same fields and cards. *)
Theorem sync_keeps_decks_and_types tw_notes default_deck c :
  let c' := col_of (sync tw_notes default_deck c) in
  (∀ nm d, decks c !! nm = Some d → decks c' !! nm = Some d)
  ∧ (∀ nm nt, models c !! nm = Some nt → models c' !! nm = Some nt).
Proof.
  intros c'. destruct (sync_keeps tw_notes default_deck c) as [Hd Hm].
  split; intros ? ? H; by eapply lookup_weaken.
Qed.

(** ** What a run that ends normally leaves, note by note *)


Lemma add_loop_holders default_deck (emap : gmap string TwNote) l : ∀ c c',
  types_ok = true → keyed_by_id emap → verified c →
  for_each l (add_one default_deck emap) c = Done tt c' →
  (∀ j y, holds c j y → holds c' j y)
  ∧ (∀ j y, holds c' j y → holds c j y ∨ notes c !! j = None)
  ∧ (∀ j, notes c' !! j = None → notes c !! j = None).
Proof.
  induction l as [|x l IH]; intros c c' Hty Hemap Hv Hrun.
  { injection Hrun as <-. split_and!; eauto. }
  cbn [for_each] in Hrun. apply bind_inv in Hrun as ([] & c1 & Hx & Hrun).
  destruct (add_one_holds _ _ _ _ _ Hty Hv Hemap Hx) as (k & Hk & Heq & Hm).
  destruct (add_one_shape _ _ _ _ _ Hty Hv Hemap Hx)
    as (tw & k' & dk & _ & _ & _ & Hn & _).
  assert (Hnone : ∀ j, notes c1 !! j = None → notes c !! j = None).
  { intros j Hj. rewrite Hn in Hj. by apply lookup_insert_None in Hj as [? _]. }
  destruct (IH c1 c' Hty Hemap (verified_models _ _ Hm Hv) Hrun)
    as (Hfwd & Hbwd & Hnone').
  split_and!.
  - intros j y Hj. apply Hfwd, Heq. by left.
  - intros j y [Hj|Hj]%Hbwd.
    + apply Heq in Hj as [Hj|[-> _]]; [by left|by right].
    + right. by apply Hnone.
  - intros j Hj. by apply Hnone, Hnone'.
Qed.

Lemma edit_loop_holders default_deck (emap : gmap string TwNote) l :
  ∀ st c st' c',
  types_ok = true → keyed_by_id emap → verified c → linked c st.1 →
  for_fold l (edit_one default_deck emap) st c = Done st' c' →
  ∀ j y, holds c' j y ↔ holds c j y.
Proof.
  induction l as [|x l IH]; intros st c st' c' Hty Hemap Hv Hlink Hrun.
  { by injection Hrun as <- <-. }
  cbn [for_fold] in Hrun. apply bind_inv in Hrun as (st1 & c1 & Hx & Hrun).
  destruct (edit_one_holds _ _ _ _ _ _ _ Hty Hv Hemap Hlink Hx) as (Heq & Hm & Hlink1).
  intros j y.
  rewrite (IH st1 c1 st' c' Hty Hemap (verified_models _ _ Hm Hv) Hlink1 Hrun).
  apply Heq.
Qed.

(** The collection before the removal of a run that ends normally, and the
    notes it removes. *)
Lemma sync_holders tw_notes default_deck c s c' :
  (∀ X, order X ≡ₚ elements X) →
  types_ok = true → source_ok tw_notes = true → unique_ids c = true →
  sync tw_notes default_deck c = Done s c' →
  ∃ cb (ids : list nat),
    notes c' = filter (λ kv, kv.1 ∉ ids) (notes cb)
    ∧ cards c' = filter (λ kv, c_nid kv.2 ∉ ids) (cards cb)
    ∧ (∀ j y, holds c j y → holds cb j y)
    ∧ (∀ j y, holds cb j y → holds c j y ∨ notes c !! j = None)
    ∧ unique cb
    ∧ (∀ i, i ∈ ids
         ↔ ∃ x, x ∈ target_ids c ∧ (x ∉ source_ids tw_notes) ∧ holds cb i x).
Proof.
  intros Hord Hty Hsrc Huniq
    (c0 & keyed & Hens & Hv & Hn0 & _ & _ & Hk2 & Hk1 & Hrun)%sync_inv.
  pose proof (source_ok_keyed_by_id _ Hsrc) as Hemap.
  assert (Hu0 : unique c0).
  { apply (unique_ids_notes c); [done|by apply unique_ids_spec]. }
  assert (Hlink0 : linked c0 (dict_of keyed)).
  { intros x n Hx. by apply (amap_lookup c0 keyed Hk2 Hk1). }
  unfold apply_changes in Hrun. rewrite (keyed_ids c0 keyed Hk2 Hk1) in Hrun.
  rewrite (target_ids_notes c c0 Hn0) in Hrun.
  fold (source_ids tw_notes) in Hrun.
  set (src := source_ids tw_notes) in *.
  set (tgt := target_ids c) in *.
  apply bind_inv in Hrun as ([] & ca & Hadd & Hrun).
  apply bind_inv in Hrun as (st & cb & Hedit & Hrun).
  apply bind_inv in Hrun as (ids & cc & [-> Hids]%note_ids_inv & Hrun).
  apply bind_inv in Hrun as ([] & cd & Hrm & Hrun).
  injection Hrun as <- <-. injection Hrm as <-.
  assert (Hnotin : ∀ x, x ∈ order (adds src tgt) → x ∉ target_ids c0).
  { intros x Hx%(elem_of_order Hord). unfold adds in Hx.
    rewrite (target_ids_notes c c0 Hn0).
    by apply elem_of_difference in Hx as [_ ?]. }
  destruct (add_loop_holds _ _ (dict_of keyed) _ _ _ Hty Hemap Hv Hu0 Hlink0
              (order_NoDup Hord _) Hnotin Hadd) as (Hva & Hua & Hlinka & _).
  destruct (add_loop_holders _ _ _ _ _ Hty Hemap Hv Hadd) as (Hfwd & Hbwd & _).
  destruct (edit_loop_holds _ _ _ (dict_of keyed, 0) _ _ _ Hty Hemap Hva Hua
              Hlinka Hedit) as (_ & Hub & Hlinkb & _).
  pose proof (edit_loop_holders _ _ _ (dict_of keyed, 0) _ _ _ Hty Hemap Hva
                Hlinka Hedit) as Heq.
  exists cb, ids. split_and!; try done.
  - intros j y Hj. apply Heq, Hfwd. by apply (holds_same_notes c c0).
  - intros j y [Hj|Hj]%Heq%Hbwd.
    + left. by apply (holds_same_notes c c0) in Hj.
    + right. by rewrite <-Hn0.
  - intros i. split.
    + intros Hi. apply list_elem_of_lookup in Hi as [p Hp].
      destruct (Forall2_lookup_r _ _ _ _ _ Hids Hp) as (x & Hx & n & Hn & <-).
      apply list_elem_of_lookup_2, (elem_of_order Hord) in Hx.
      unfold removes in Hx. apply elem_of_difference in Hx as [? ?].
      exists x. split_and!; try done. by eapply linked_holds.
    + intros (x & Hx & Hxs & Hhold).
      assert (Hxl : x ∈ order (removes src tgt)).
      { apply (elem_of_order Hord). unfold removes. by apply elem_of_difference. }
      apply list_elem_of_lookup in Hxl as [p Hp].
      destruct (Forall2_lookup_l _ _ _ _ _ Hids Hp) as (i' & Hi' & n & Hn & <-).
      pose proof (linked_holds _ _ _ _ Hlinkb Hn) as Hh. rewrite (Hub _ _ _ Hhold Hh).
      by eapply list_elem_of_lookup_2.
Qed.



(** ** A note without the reserved field *)

Lemma keyed_raises (l : list Note) c :
  ¬ Forall (λ n, is_Some (twid_of (nrow n))) l →
  map_m keyed_note l c = Raise (KeyError ID_FIELD_NAME) c.
Proof.
  induction l as [|n l IH]; intros Hn; [by destruct Hn|].
  cbn [map_m]. unfold bind at 1. unfold keyed_note at 1. unfold bind at 1.
  destruct (twid_of (nrow n)) as [x|] eqn:Hx; [|done].
  cbn [of_option ret]. unfold bind at 1. rewrite IH; [done|].
  intros Hall. apply Hn. constructor; eauto.
Qed.

(** X12: when the note types are intact but some note of a recognized type
    lacks the reserved field, the run fails with [KeyError] on that field
    while it reads the ids, before any change: no note, card or deck has
    changed. *)
Theorem sync_missing_id_field tw_notes default_deck c :
  names_ok = true → models_ok c = true → ids_ok c = false →
  ∃ c', sync tw_notes default_deck c = Raise (KeyError ID_FIELD_NAME) c'
    ∧ notes c' = notes c ∧ cards c' = cards c ∧ decks c' = decks c.
Proof.
  intros Hnames Hmod Hids.
  destruct (ensure_verified c Hnames Hmod) as (c0 & Hens & Hv & Hn0).
  destruct (ensure_run c) as (c0' & Hens' & _ & Hc0 & Hd0 & _).
  rewrite Hens in Hens'. injection Hens' as <-.
  exists c0. split; [|done].
  change (sync tw_notes default_deck) with
    (ensure_note_types ;; verify_note_types ;;
     do found <- find_notes_of_types (name <$> all_note_types);
     do anki_notes <- map_m getNote found;
     do keyed <- map_m keyed_note anki_notes;
     apply_changes tw_notes default_deck keyed).
  rewrite (bind_done _ _ _ _ _ Hens), (bind_done _ _ _ _ _ (verify_run c0 Hv)).
  unfold bind at 1, find_notes_of_types, get.
  rewrite (bind_done _ _ _ _ _ (load_run c0)).
  apply bind_raise, keyed_raises.
  rewrite (loaded_notes c c0 Hn0). intros Hall.
  unfold ids_ok in Hids. apply not_true_iff_false in Hids. apply Hids.
  apply forallb_forall. intros n Hn%list_elem_of_In. apply bool_decide_eq_true.
  by eapply Forall_forall in Hall.
Qed.

(** ** The number of updates *)

Lemma edit_loop_count default_deck (emap : gmap string TwNote) l : ∀ st c st' c',
  for_fold l (edit_one default_deck emap) st c = Done st' c' →
  st'.2 ≤ st.2 + length l.
Proof.
  induction l as [|x l IH]; intros st c st' c' Hrun.
  { injection Hrun as <- <-. lia. }
  cbn [for_fold] in Hrun. apply bind_inv in Hrun as (st1 & c1 & Hx & Hrun).
  apply IH in Hrun.
  apply edit_one_inv in Hx as (an & tw & an1 & c2 & checked & c3 & _ & _ & _ & _ & _ & ->).
  cbn [snd length] in *. destruct checked.2; lia.
Qed.

(** X13: in a run that ends normally the number of updates reported is at
    most the number of ids that the source and the collection share: a
    note is counted once at most, and a note that is added or removed is
    never counted as updated. *)
Theorem sync_updates_bounded tw_notes default_deck c s c' :
  (∀ X, order X ≡ₚ elements X) →
  sync tw_notes default_deck c = Done s c' →
  ∃ n, n ≤ size (edits (source_ids tw_notes) (target_ids c))
    ∧ s = join newline
            [summary_line "Added"
               (size (adds (source_ids tw_notes) (target_ids c)));
             summary_line "Updated" n;
             summary_line "Removed"
               (size (removes (source_ids tw_notes) (target_ids c)))].
Proof.
  intros Hord (c0 & keyed & Hens & Hv & Hn0 & _ & _ & Hk2 & Hk1 & Hrun)%sync_inv.
  unfold apply_changes in Hrun.
  rewrite (keyed_ids c0 keyed Hk2 Hk1), (target_ids_notes c c0 Hn0) in Hrun.
  apply bind_inv in Hrun as ([] & ca & Hadd & Hrun).
  apply bind_inv in Hrun as (st & cb & Hedit & Hrun).
  apply bind_inv in Hrun as (ids & cc & [-> _]%note_ids_inv & Hrun).
  apply bind_inv in Hrun as ([] & cd & Hrm & Hrun).
  injection Hrun as <- <-.
  apply edit_loop_count in Hedit. cbn [snd] in Hedit.
  exists st.2. split; [|done].
  rewrite (Hord _) in Hedit. exact Hedit.
Qed.

End Properties.

(** ** Idempotence *)

Section Idempotence.

Variable all_note_types : list ModelData.
Variable ID_FIELD_NAME : string.
Variables field_remap card_remap : ModelData → ModelData → nat → option nat.
Variable card_ords : NoteRow → list nat.
Variable due_date_of : string → Z.

(** The two runs need not be on the same day, nor iterate the sets of ids
    in the same order. *)
Variables today1 today2 : Z.
Variables order1 order2 : gset string → list string.


End Idempotence.

(** ** The properties on the small collection *)



Lemma migration_before_field_check_witness :
  ∃ new_note c',
    _change_note_type Demo.types Demo.fmap Demo.cmap Demo.noteA' Demo.note0
      (Demo.after [Demo.noteA] Demo.empty) = Done new_note c'
    ∧ model_equal Demo.noteA' new_note = true
    ∧ notes c' !! 0 = Some (nrow new_note).
Proof.
  destruct (migration_before_field_check Demo.types "ID" Demo.fmap Demo.cmap
              "Default" Demo.emap "1001" (Demo.amap, 0) Demo.noteA' Demo.note0
              Demo.Q {| flds := ["Text"; "ID"]; tmpls := ["Cloze"] |}
              (nrow Demo.note0) (Demo.after [Demo.noteA] Demo.empty))
    as (new_note & c' & Hrun & _ & _ & Hread & Hmodel & _).
  - vm_compute. reflexivity.
  - vm_compute. reflexivity.
  - vm_compute. reflexivity.
  - vm_compute. reflexivity.
  - vm_compute. reflexivity.
  - vm_compute. reflexivity.
  - exists new_note, c'. split; [exact Hrun|]. split; [exact Hmodel|exact Hread].
Defined.


Lemma unrecognized_type_is_fatal_witness :
  for_fold ["1001"; "3003"; "1001"]
    (edit_one Demo.types "ID" Demo.fmap Demo.cmap "Default" Demo.emap)
    (Demo.amap, 0) (Demo.after [Demo.noteA] Demo.empty)
  = Raise (AssertionError (unsupported_type "Basic")) (col_of Demo.edited).
Proof.
  apply (unrecognized_type_is_fatal Demo.types "ID" Demo.fmap Demo.cmap "Default"
           Demo.emap ["1001"] ["1001"] "3003" (Demo.amap, 0)
           (Demo.after [Demo.noteA] Demo.empty) Demo.edited_state
           (col_of Demo.edited) Demo.stray Demo.noteC Demo.Q).
  - vm_compute. reflexivity.
  - vm_compute. reflexivity.
  - vm_compute. reflexivity.
  - vm_compute. reflexivity.
  - vm_compute. reflexivity.
Defined.

Lemma no_schedule_no_seeding_witness :
  ∃ d c1 n c2,
    decks_id (or_ (target_deck Demo.noteB) "Default")
      (Demo.after [] Demo.empty) = Done d c1
    ∧ add_note Demo.ords
        (update_row "ID" Demo.noteB
           (new_note "Q" {| flds := ["Q"; "A"; "ID"]; tmpls := ["Card 1"] |}))
        d c1 = Done n c2
    ∧ add_one "ID" Demo.ords Demo.due_of 100 "Default" {[ "2002" := Demo.noteB ]}
        "2002" (Demo.after [] Demo.empty) = Done tt c2.
Proof.
  apply (no_schedule_no_seeding "ID" Demo.ords Demo.due_of 100 "Default"
           {[ "2002" := Demo.noteB ]} "2002" Demo.noteB
           {| flds := ["Q"; "A"; "ID"]; tmpls := ["Card 1"] |}
           (Demo.after [] Demo.empty)).
  - vm_compute. reflexivity.
  - vm_compute. reflexivity.
  - reflexivity.
Defined.


Lemma falsy_target_deck_is_default_witness :
  or_ (target_deck Demo.noteB) "Default" = "Default"
  ∧ ∃ d c',
      _update_deck Demo.noteB Demo.note0 "Default"
        (Demo.after [Demo.noteA] Demo.empty) = Done tt c'
      ∧ decks c' !! "Default" = Some d
      ∧ ∀ k cd, cards c' !! k = Some cd → c_nid cd = 0 → did cd = d.
Proof.
  destruct (falsy_target_deck_is_default "ID" Demo.ords Demo.due_of 100
              Demo.noteB "Default") as (Hor & Hedit & _).
  - right. reflexivity.
  - split; [exact Hor|].
    exact (Hedit Demo.note0 (Demo.after [Demo.noteA] Demo.empty)).
Defined.








Lemma sync_missing_id_field_witness :
  ∃ c', Demo.run [Demo.noteA] Demo.bare = Raise (KeyError "ID") c'
    ∧ notes c' = notes Demo.bare.
Proof.
  destruct (sync_missing_id_field Demo.types "ID" Demo.fmap Demo.cmap Demo.ords
              Demo.due_of 100 elements [Demo.noteA] "Default" Demo.bare)
    as (c' & Hrun & Hnotes & _).
  - vm_compute. reflexivity.
  - vm_compute. reflexivity.
  - vm_compute. reflexivity.
  - exists c'. split; [exact Hrun|exact Hnotes].
Defined.

Lemma sync_updates_bounded_witness :
  ∃ n,
    n ≤ size (edits (source_ids [Demo.noteA'; Demo.noteC])
                (target_ids Demo.types "ID"
                   (Demo.after [Demo.noteA; Demo.noteB] Demo.empty)))
    ∧ join newline [summary_line "Added" 1; summary_line "Updated" 1;
                    summary_line "Removed" 1]
      = join newline
          [summary_line "Added"
             (size (adds (source_ids [Demo.noteA'; Demo.noteC])
                      (target_ids Demo.types "ID"
                         (Demo.after [Demo.noteA; Demo.noteB] Demo.empty))));
           summary_line "Updated" n;
           summary_line "Removed"
             (size (removes (source_ids [Demo.noteA'; Demo.noteC])
                      (target_ids Demo.types "ID"
                         (Demo.after [Demo.noteA; Demo.noteB] Demo.empty))))].
Proof.
  apply (sync_updates_bounded Demo.types "ID" Demo.fmap Demo.cmap Demo.ords
           Demo.due_of 100 elements [Demo.noteA'; Demo.noteC] "Default"
           (Demo.after [Demo.noteA; Demo.noteB] Demo.empty) _
           (Demo.after [Demo.noteA'; Demo.noteC]
              (Demo.after [Demo.noteA; Demo.noteB] Demo.empty))).
  - intros X. reflexivity.
  - vm_compute. reflexivity.
Defined.

(** The uniqueness of the ids is needed for the coverage: of two notes that
    hold the same id, one that no source note has, the run removes only the
    one filed in [anki_notes_map], and the id stays. *)
Example twins_survive :
  unique_ids Demo.types "ID" Demo.twins = false
  ∧ Demo.run [] Demo.twins
    = Done ("Added 0 notes." +:+ newline +:+ "Updated 0 notes." +:+ newline
              +:+ "Removed 1 note.")
        (Demo.after [] Demo.twins)
  ∧ target_ids Demo.types "ID" (Demo.after [] Demo.twins) = {[ "9" ]}
  ∧ source_ids [] = ∅.
Proof. split_and!; vm_compute; reflexivity. Qed.
